(** * Case-conversion helpers and the comments router

    A shallow embedding of [few_shot_prompt.js], [refined_prompt.js], the
    kebab-case module that documents itself as [./chain_prompt], and
    [backend/routes/api/comments.js], together with the properties their
    description states about them.

    JavaScript strings are sequences of UTF-16 code units, modelled as
    [list N].  The built-ins the sources call ([String], [trim],
    [String.prototype.match] with a character-class regex, [replace],
    [split], [toLowerCase], ...) are modelled after ECMAScript; the parts of
    them that depend on the Unicode Character Database outside ASCII are
    fields of a [Runtime] record. *)

From Stdlib Require Import NArith ZArith List Bool Ascii String Lia ZifyBool.
From Stdlib Require Import Floats.SpecFloat.
From stdpp Require Import gmap.
Import ListNotations.

(** ** ECMAScript built-ins used by the sources *)

Module JS.
Local Open Scope N_scope.

Abbreviation JSString := (list N).

(** An ASCII string literal of the source, as code units. *)
Definition lit (s : string) : JSString :=
  List.map N_of_ascii (list_ascii_of_string s).

Definition inRange (lo hi c : N) : bool := (lo <=? c) && (c <=? hi).

(** The regex classes [[A-Z]], [[a-z]], [[0-9]], [[a-z0-9]], [[A-Za-z0-9]]. *)
Definition isUpperAZ (c : N) : bool := inRange 65 90 c.
Definition isLowerAZ (c : N) : bool := inRange 97 122 c.
Definition isDigit09 (c : N) : bool := inRange 48 57 c.
Definition isLowerOrDigit (c : N) : bool := isLowerAZ c || isDigit09 c.
Definition isAsciiAlnum (c : N) : bool :=
  isUpperAZ c || isLowerAZ c || isDigit09 c.

Definition isAscii (c : N) : bool := c <? 128.

(** WhiteSpace and LineTerminator code points of ECMAScript: what [trim]
    strips and what [\s] matches. *)
Definition isWhiteSpace (c : N) : bool :=
  inRange 9 13 c || (c =? 32) || (c =? 0xA0) || (c =? 0x1680)
  || inRange 0x2000 0x200A c || (c =? 0x2028) || (c =? 0x2029)
  || (c =? 0x202F) || (c =? 0x205F) || (c =? 0x3000) || (c =? 0xFEFF).

Fixpoint trimStart (s : JSString) : JSString :=
  match s with
  | [] => []
  | c :: t => if isWhiteSpace c then trimStart t else s
  end.

Definition trimEnd (s : JSString) : JSString := rev (trimStart (rev s)).

Definition trim (s : JSString) : JSString := trimEnd (trimStart s).

(** [Array.prototype.join]. *)
Fixpoint join (sep : JSString) (parts : list JSString) : JSString :=
  match parts with
  | [] => []
  | p :: ps =>
      match ps with
      | [] => p
      | _ :: _ => p ++ sep ++ join sep ps
      end
  end.

(** [charAt(0)] and [slice(1)]. *)
Definition charAt0 (s : JSString) : JSString :=
  match s with [] => [] | c :: _ => [c] end.

Definition slice1 (s : JSString) : JSString :=
  match s with [] => [] | _ :: t => t end.

(** *** UTF-16: a regex with the [u] flag reads code points *)

Definition isHighSurrogate (c : N) : bool := inRange 0xD800 0xDBFF c.
Definition isLowSurrogate (c : N) : bool := inRange 0xDC00 0xDFFF c.

Fixpoint codePoints (s : JSString) : list N :=
  match s with
  | [] => []
  | hi :: t =>
      match t with
      | lo :: t' =>
          if isHighSurrogate hi && isLowSurrogate lo
          then (0x10000 + (hi - 0xD800) * 0x400 + (lo - 0xDC00)) :: codePoints t'
          else hi :: codePoints t
      | [] => [hi]
      end
  end.

Definition codeUnits (cp : N) : JSString :=
  if cp <? 0x10000 then [cp]
  else [0xD800 + (cp - 0x10000) / 0x400; 0xDC00 + (cp - 0x10000) mod 0x400].

Definition encode (cps : list N) : JSString := flat_map codeUnits cps.

(** *** The runtime: what the engine and its Unicode tables decide *)

Record Runtime := {
  (** whether [new RegExp('\\p{L}', 'u')] succeeds *)
  unicodePropertyEscapes : bool;
  (** [\p{L}] or [\p{N}], for code points outside ASCII *)
  uniLetterOrNumber : N -> bool;
  (** [toLowerCase] / [toUpperCase] of a string that has a non-ASCII unit *)
  uniToLowerCase : JSString -> JSString;
  uniToUpperCase : JSString -> JSString;
  (** whether [String.prototype.normalize] exists, and NFKD of a string
      that has a non-ASCII unit *)
  hasNormalize : bool;
  uniNormalizeNFKD : JSString -> JSString;
  (** Number::toString of a finite non-zero double (sign, mantissa, exponent) *)
  finiteNumberToString : bool -> positive -> Z -> JSString
}.

Definition asciiLower (c : N) : N := if isUpperAZ c then c + 32 else c.
Definition asciiUpper (c : N) : N := if isLowerAZ c then c - 32 else c.

(** In ASCII the case mappings are the 26 letter pairs and nothing else;
    ASCII is closed under NFKD. *)
Definition toLowerCase (rt : Runtime) (s : JSString) : JSString :=
  if forallb isAscii s then List.map asciiLower s else uniToLowerCase rt s.

Definition toUpperCase (rt : Runtime) (s : JSString) : JSString :=
  if forallb isAscii s then List.map asciiUpper s else uniToUpperCase rt s.

Definition normalizeNFKD (rt : Runtime) (s : JSString) : JSString :=
  if forallb isAscii s then s else uniNormalizeNFKD rt s.

(** [[\p{L}\p{N}]]: in ASCII, exactly the letters A-Z, a-z and digits 0-9. *)
Definition isLetterOrNumber (rt : Runtime) (cp : N) : bool :=
  if isAscii cp then isAsciiAlnum cp else uniLetterOrNumber rt cp.

(** *** Global match of a one-class regex [/[cls]+/g]

    The engine scans from [lastIndex]; [cur] is the match in progress, which
    the greedy [+] extends while the class matches and which is emitted when
    it cannot be extended. *)
Section ClassRegex.
Context {A : Type} (cls : A -> bool).

Definition emit (cur : list A) (k : list (list A)) : list (list A) :=
  match cur with [] => k | _ :: _ => cur :: k end.

Fixpoint matchClassPlus (cur : list A) (s : list A) : list (list A) :=
  match s with
  | [] => emit cur []
  | c :: t =>
      if cls c then matchClassPlus (cur ++ [c]) t
      else emit cur (matchClassPlus [] t)
  end.

(** [split(/[cls]+/)]: the pieces between the separator matches, empty
    pieces included; [inSep] holds while a separator match is being
    extended. *)
Fixpoint splitClassPlus (cur : list A) (inSep : bool) (s : list A)
  : list (list A) :=
  match s with
  | [] => [cur]
  | c :: t =>
      if cls c
      then if inSep then splitClassPlus [] true t
           else cur :: splitClassPlus [] true t
      else splitClassPlus (cur ++ [c]) false t
  end.

(** [replace(/[cls]+/g, rep)]. *)
Fixpoint replaceClassPlus (rep : list A) (inMatch : bool) (s : list A)
  : list A :=
  match s with
  | [] => []
  | c :: t =>
      if cls c
      then if inMatch then replaceClassPlus rep true t
           else rep ++ replaceClassPlus rep true t
      else c :: replaceClassPlus rep false t
  end.
End ClassRegex.

(** [filter(Boolean)] on an array of strings drops the empty ones. *)
Definition nonEmpty (s : JSString) : bool :=
  match s with [] => false | _ :: _ => true end.

Definition filterBoolean (parts : list JSString) : list JSString :=
  List.filter nonEmpty parts.

(** The two regexes a conversion function of [refined_prompt.js] can pick. *)
Inductive WordRegex := UnicodeWords | AsciiWords.

Definition matchWords (rt : Runtime) (re : WordRegex) (s : JSString)
  : list JSString :=
  match re with
  | UnicodeWords =>
      List.map encode (matchClassPlus (isLetterOrNumber rt) [] (codePoints s))
  | AsciiWords => matchClassPlus isAsciiAlnum [] s
  end.

(** [str.match(re)] with a global regex: [null] when nothing matches. *)
Definition strMatch (rt : Runtime) (re : WordRegex) (s : JSString)
  : option (list JSString) :=
  match matchWords rt re s with
  | [] => None
  | ws => Some ws
  end.

(** *** Values, completions and coercions *)

(** What a [throw] carries, as far as the sources distinguish it
    ([err instanceof TypeError]). *)
Inductive JSError := TypeError | OtherError.

Inductive Completion (A : Type) :=
  | Return (a : A)
  | Throw (e : JSError).
Arguments Return {A} a.
Arguments Throw {A} e.

#[global] Instance Completion_ret : MRet Completion := fun A a => Return a.
#[global] Instance Completion_bind : MBind Completion :=
  fun A B f c => match c with Return a => f a | Throw e => Throw e end.

Inductive Primitive :=
  | PUndefined
  | PNull
  | PBoolean (b : bool)
  | PNumber (x : spec_float)
  | PBigInt (z : Z)
  | PString (s : JSString)
  | PSymbol (description : option JSString).

(** An object takes part in these programs only through its conversion to
    a primitive with hint "string" ([Symbol.toPrimitive], [toString],
    [valueOf]), which returns a primitive or throws. *)
Inductive JSValue :=
  | JSPrim (p : Primitive)
  | JSObject (toPrimitive : Completion Primitive).

Fixpoint digitsOfUint (d : Decimal.uint) : JSString :=
  match d with
  | Decimal.Nil => []
  | Decimal.D0 d' => 48 :: digitsOfUint d'
  | Decimal.D1 d' => 49 :: digitsOfUint d'
  | Decimal.D2 d' => 50 :: digitsOfUint d'
  | Decimal.D3 d' => 51 :: digitsOfUint d'
  | Decimal.D4 d' => 52 :: digitsOfUint d'
  | Decimal.D5 d' => 53 :: digitsOfUint d'
  | Decimal.D6 d' => 54 :: digitsOfUint d'
  | Decimal.D7 d' => 55 :: digitsOfUint d'
  | Decimal.D8 d' => 56 :: digitsOfUint d'
  | Decimal.D9 d' => 57 :: digitsOfUint d'
  end.

Definition bigIntToString (z : Z) : JSString :=
  match z with
  | Z0 => lit "0"
  | Zpos p => digitsOfUint (Pos.to_uint p)
  | Zneg p => 45 :: digitsOfUint (Pos.to_uint p)
  end.

Definition numberToString (rt : Runtime) (x : spec_float) : JSString :=
  match x with
  | S754_nan => lit "NaN"
  | S754_zero _ => lit "0"
  | S754_infinity false => lit "Infinity"
  | S754_infinity true => lit "-Infinity"
  | S754_finite s m e => finiteNumberToString rt s m e
  end.

(** The abstract operation ToString on a primitive. *)
Definition ToString (rt : Runtime) (p : Primitive) : Completion JSString :=
  match p with
  | PUndefined => Return (lit "undefined")
  | PNull => Return (lit "null")
  | PBoolean true => Return (lit "true")
  | PBoolean false => Return (lit "false")
  | PNumber x => Return (numberToString rt x)
  | PBigInt z => Return (bigIntToString z)
  | PString s => Return s
  | PSymbol _ => Throw TypeError
  end.

Definition symbolDescriptiveString (description : option JSString) : JSString :=
  lit "Symbol(" ++ match description with Some d => d | None => [] end ++ lit ")".

(** The call [String(value)]: a Symbol argument is described, anything else
    goes through ToString (an object first through ToPrimitive). *)
Definition StringCall (rt : Runtime) (value : JSValue) : Completion JSString :=
  match value with
  | JSPrim (PSymbol d) => Return (symbolDescriptiveString d)
  | JSPrim p => ToString rt p
  | JSObject c => p ← c; ToString rt p
  end.

Definition ToBoolean (value : JSValue) : bool :=
  match value with
  | JSPrim PUndefined | JSPrim PNull => false
  | JSPrim (PBoolean b) => b
  | JSPrim (PNumber (S754_zero _)) | JSPrim (PNumber S754_nan) => false
  | JSPrim (PNumber _) => true
  | JSPrim (PBigInt z) => negb (z =? 0)%Z
  | JSPrim (PString s) => nonEmpty s
  | JSPrim (PSymbol _) => true
  | JSObject _ => true
  end.

(** [value == null]. *)
Definition isNullish (value : JSValue) : bool :=
  match value with
  | JSPrim PUndefined | JSPrim PNull => true
  | _ => false
  end.

(** [typeof value === 'symbol']. *)
Definition isSymbol (value : JSValue) : bool :=
  match value with
  | JSPrim (PSymbol _) => true
  | _ => false
  end.

(** [a || b]. *)
Definition orElse (a b : JSValue) : JSValue := if ToBoolean a then a else b.

End JS.

Import JS.
Local Open Scope N_scope.

(** ** refined_prompt.js *)

Module RefinedPrompt.

(** The immediately-invoked arrow that picks [wordRegex]. *)
Definition wordRegex (rt : Runtime) : WordRegex :=
  if unicodePropertyEscapes rt then UnicodeWords else AsciiWords.

(** The last of the three declarations of [toKebabCase], the one in force. *)
Definition toKebabCase (rt : Runtime) (value : JSValue) : Completion JSString :=
  if isNullish value then Return []
  else
    s ← StringCall rt value;
    let str := trim s in
    if negb (nonEmpty str) then Return []
    else
      match strMatch rt (wordRegex rt) str with
      | None => Return []
      | Some words =>
          if (length words =? 0)%nat then Return []
          else Return (join (lit "-") (List.map (toLowerCase rt) words))
      end.

Definition capitalize (rt : Runtime) (w : JSString) : JSString :=
  let lower := toLowerCase rt w in
  toUpperCase rt (charAt0 lower) ++ slice1 lower.

Definition toCamelCase (rt : Runtime) (value : JSValue) : Completion JSString :=
  if isNullish value then Return []
  else
    s ← StringCall rt value;
    let str := trim s in
    if negb (nonEmpty str) then Return []
    else
      match strMatch rt (wordRegex rt) str with
      | None => Return []
      | Some [] => Return []
      | Some (first :: rest) =>
          let firstPart := toLowerCase rt first in
          let restParts := List.map (capitalize rt) rest in
          Return (firstPart ++ join [] restParts)
      end.

Definition toDotCase (rt : Runtime) (value : JSValue) : Completion JSString :=
  if isNullish value then Return []
  else
    s ← StringCall rt value;
    let str := trim s in
    if negb (nonEmpty str) then Return []
    else
      match strMatch rt (wordRegex rt) str with
      | None => Return []
      | Some words =>
          if (length words =? 0)%nat then Return []
          else Return (join (lit ".") (List.map (toLowerCase rt) words))
      end.

End RefinedPrompt.

(** ** The camelCase-boundary rewrites of few_shot_prompt.js and of the
       kebab-case module *)

Module Boundary.

(** [replace(/([a-z0-9])([A-Z])/g, '$1 $2')]: a match is two code units and
    the scan resumes after it. *)
Fixpoint splitLowerUpper (s : JSString) : JSString :=
  match s with
  | [] => []
  | a :: t =>
      match t with
      | b :: t' =>
          if isLowerOrDigit a && isUpperAZ b
          then a :: 32 :: b :: splitLowerUpper t'
          else a :: splitLowerUpper t
      | [] => [a]
      end
  end.

(** [replace(/([A-Z]+)([A-Z][a-z0-9])/g, '$1 $2')].  [run] is the run of
    capitals the scan is in.  The greedy [[A-Z]+] takes the whole run and
    gives back one capital for [$2]; so there is a match exactly when the
    run has two capitals or more and a lower-case letter or digit follows,
    and then [$1] is the run without its last capital.  A run that does not
    end in a match has no match starting inside it either. *)
Fixpoint splitAcronym (run : JSString) (s : JSString) : JSString :=
  match s with
  | [] => run
  | c :: t =>
      if isUpperAZ c then splitAcronym (run ++ [c]) t
      else if isLowerOrDigit c && (2 <=? length run)%nat
      then removelast run ++ [32] ++ [List.last run 0] ++ [c] ++ splitAcronym [] t
      else run ++ c :: splitAcronym [] t
  end.

(** [replace(/([A-Z]+)([A-Z][a-z0-9]+)/g, '$1 $2')]: as above, but [$2]
    goes on through the lower-case letters and digits that follow
    ([inTail]), and the scan resumes after them. *)
Fixpoint splitAcronymWord (inTail : bool) (run : JSString) (s : JSString)
  : JSString :=
  match s with
  | [] => run
  | c :: t =>
      if inTail && isLowerOrDigit c then c :: splitAcronymWord true [] t
      else if isUpperAZ c then splitAcronymWord false (run ++ [c]) t
      else if isLowerOrDigit c && (2 <=? length run)%nat
      then removelast run ++ [32] ++ [List.last run 0] ++ [c]
           ++ splitAcronymWord true [] t
      else run ++ c :: splitAcronymWord false [] t
  end.

End Boundary.

(** ** few_shot_prompt.js *)

Module FewShotPrompt.
Import Boundary.

Definition separate (s : JSString) : JSString :=
  splitAcronym [] (splitLowerUpper s).

(** [separated.split(/[^A-Za-z0-9]+/).filter(Boolean)]. *)
Definition partsOf (separated : JSString) : list JSString :=
  filterBoolean (splitClassPlus (fun c => negb (isAsciiAlnum c)) [] false separated).

Definition mapPart (rt : Runtime) (i : nat) (part : JSString) : JSString :=
  let lower := toLowerCase rt part in
  if (i =? 0)%nat then lower
  else toUpperCase rt (charAt0 lower) ++ slice1 lower.

Definition toCamelCase (rt : Runtime) (input : JSValue) : Completion JSString :=
  s0 ← StringCall rt (orElse input (JSPrim (PString [])));
  let s := trim s0 in
  if negb (nonEmpty s) then Return []
  else
    let separated := separate s in
    let parts := partsOf separated in
    if (length parts =? 0)%nat then Return []
    else Return (join [] (imap (mapPart rt) parts)).

End FewShotPrompt.

(** ** The kebab-case module ([./chain_prompt]) *)

Module ChainPrompt.
Import Boundary.

Definition isCombiningMark (c : N) : bool := inRange 0x300 0x36F c.

(** [s.normalize ? s.normalize('NFKD').replace(/[\u0300-\u036f]/g, '') : s] *)
Definition normalized (rt : Runtime) (s : JSString) : JSString :=
  if hasNormalize rt
  then List.filter (fun c => negb (isCombiningMark c)) (normalizeNFKD rt s)
  else s.

Definition spaced (rt : Runtime) (s : JSString) : JSString :=
  splitAcronymWord false [] (splitLowerUpper (normalized rt s)).

(** The tokens: after [.filter(Boolean)], before [.map]. *)
Definition tokens (rt : Runtime) (s : JSString) : list JSString :=
  filterBoolean
    (splitClassPlus isWhiteSpace [] false
       (trim (replaceClassPlus (fun c => negb (isAsciiAlnum c)) (lit " ") false
                (spaced rt s)))).

Definition toKebabCas (rt : Runtime) (input : JSValue) : Completion JSString :=
  if isNullish input then Return []
  else
    s ← StringCall rt input;
    Return (join (lit "-") (List.map (toLowerCase rt) (tokens rt s))).

(** What [console.error] has been called with. *)
Abbreviation Console := (list JSError).

(** The public wrapper.  It returns a completion and the console. *)
Definition toKebabCase (rt : Runtime) (input : JSValue) (console : Console)
  : Completion JSString * Console :=
  if isSymbol input then (Throw TypeError, console)
  else
    match toKebabCas rt input with
    | Return r => (Return r, console)
    | Throw TypeError => (Throw TypeError, console)
    | Throw err => (Return [], console ++ [err])
    end.

End ChainPrompt.

(** ** refined_prompt.js: the two earlier declarations of [toKebabCase]

    The file declares [toKebabCase] three times; the last declaration is the
    one in force ([RefinedPrompt.toKebabCase]).  The first two wrap the same
    steps in [try]/[catch]. *)

Module RefinedPromptFirst.
Section Engine.
(** NFC of a string that has a non-ASCII unit (ASCII is closed under NFC),
    and whether [console.error] is there to call. *)
Variable uniNormalizeNFC : JSString -> JSString.
Variable hasConsole : bool.

Definition normalizeNFC (s : JSString) : JSString :=
  if forallb isAscii s then s else uniNormalizeNFC s.

(** The [try] block. *)
Definition tryBlock (rt : Runtime) (value : JSValue) : Completion JSString :=
  if isNullish value then Return []
  else
    s ← StringCall rt value;
    let str := trim s in
    if negb (nonEmpty str) then Return []
    else
      let str := if hasNormalize rt then normalizeNFC str else str in
      match strMatch rt (RefinedPrompt.wordRegex rt) str with
      | None => Return []
      | Some words =>
          if (length words =? 0)%nat then Return []
          else Return (join (lit "-")
                         (List.map
                            (fun w =>
                               let part :=
                                 if hasNormalize rt then normalizeNFC w else w in
                               toLowerCase rt part)
                            words))
      end.

(** The function: a completion and the console. *)
Definition toKebabCase (rt : Runtime) (value : JSValue) (console : list JSError)
  : Completion JSString * list JSError :=
  match tryBlock rt value with
  | Return r => (Return r, console)
  | Throw err => (Return [], if hasConsole then console ++ [err] else console)
  end.
End Engine.
End RefinedPromptFirst.

Module RefinedPromptSecond.
Section Engine.
Variable hasConsole : bool.

Definition tryBlock (rt : Runtime) (value : JSValue) : Completion JSString :=
  if isNullish value then Return []
  else
    s ← StringCall rt value;
    let str := trim s in
    if negb (nonEmpty str) then Return []
    else
      match strMatch rt (RefinedPrompt.wordRegex rt) str with
      | None => Return []
      | Some words =>
          if (length words =? 0)%nat then Return []
          else Return (join (lit "-") (List.map (toLowerCase rt) words))
      end.

Definition toKebabCase (rt : Runtime) (value : JSValue) (console : list JSError)
  : Completion JSString * list JSError :=
  match tryBlock rt value with
  | Return r => (Return r, console)
  | Throw err => (Return [], if hasConsole then console ++ [err] else console)
  end.
End Engine.
End RefinedPromptSecond.

(** ** A runtime to run the definitions on

    Its tables follow the Unicode Character Database on U+0000-U+00FF,
    U+0130, U+0131 and U+0300-U+036F, with case mappings and decompositions
    applied code unit by code unit (no reordering of combining marks); other
    code points are left alone and are neither letters nor numbers. *)

Module Sample.

Definition letterOrNumber (cp : N) : bool :=
  (cp =? 0xAA) || (cp =? 0xB2) || (cp =? 0xB3) || (cp =? 0xB5) || (cp =? 0xB9)
  || (cp =? 0xBA) || inRange 0xBC 0xBE cp || inRange 0xC0 0xD6 cp
  || inRange 0xD8 0xF6 cp || inRange 0xF8 0xFF cp
  || (cp =? 0x130) || (cp =? 0x131).

Definition lowerUnit (c : N) : JSString :=
  if isUpperAZ c then [c + 32]
  else if inRange 0xC0 0xDE c && negb (c =? 0xD7) then [c + 32]
  else if c =? 0x130 then [0x69; 0x307]
  else [c].

Definition upperUnit (c : N) : JSString :=
  if isLowerAZ c then [c - 32]
  else if inRange 0xE0 0xFE c && negb (c =? 0xF7) then [c - 32]
  else if c =? 0xDF then [0x53; 0x53]
  else if c =? 0xFF then [0x178]
  else if c =? 0xB5 then [0x39C]
  else if c =? 0x131 then [0x49]
  else [c].

(** Base letter and combining mark of U+00C0 .. U+00FF ([0] for none). *)
Definition latin1Decomposition : list (N * N) :=
  [ (65, 0x300); (65, 0x301); (65, 0x302); (65, 0x303); (65, 0x308); (65, 0x30A);
    (0, 0); (67, 0x327);
    (69, 0x300); (69, 0x301); (69, 0x302); (69, 0x308);
    (73, 0x300); (73, 0x301); (73, 0x302); (73, 0x308);
    (0, 0); (78, 0x303);
    (79, 0x300); (79, 0x301); (79, 0x302); (79, 0x303); (79, 0x308);
    (0, 0); (0, 0);
    (85, 0x300); (85, 0x301); (85, 0x302); (85, 0x308);
    (89, 0x301); (0, 0); (0, 0);
    (97, 0x300); (97, 0x301); (97, 0x302); (97, 0x303); (97, 0x308); (97, 0x30A);
    (0, 0); (99, 0x327);
    (101, 0x300); (101, 0x301); (101, 0x302); (101, 0x308);
    (105, 0x300); (105, 0x301); (105, 0x302); (105, 0x308);
    (0, 0); (110, 0x303);
    (111, 0x300); (111, 0x301); (111, 0x302); (111, 0x303); (111, 0x308);
    (0, 0); (0, 0);
    (117, 0x300); (117, 0x301); (117, 0x302); (117, 0x308);
    (121, 0x301); (0, 0); (121, 0x308) ].

Definition nfkdUnit (c : N) : JSString :=
  if c =? 0xA0 then [32]
  else if c =? 0xA8 then [32; 0x308]
  else if c =? 0xAA then [97]
  else if c =? 0xAF then [32; 0x304]
  else if c =? 0xB2 then [50]
  else if c =? 0xB3 then [51]
  else if c =? 0xB4 then [32; 0x301]
  else if c =? 0xB5 then [0x3BC]
  else if c =? 0xB8 then [32; 0x327]
  else if c =? 0xB9 then [49]
  else if c =? 0xBA then [111]
  else if c =? 0xBC then [49; 0x2044; 52]
  else if c =? 0xBD then [49; 0x2044; 50]
  else if c =? 0xBE then [51; 0x2044; 52]
  else if c =? 0x130 then [73; 0x307]
  else if inRange 0xC0 0xFF c then
    match nth (N.to_nat (c - 0xC0)) latin1Decomposition (0, 0) with
    | (0, _) => [c]
    | (base, mark) => [base; mark]
    end
  else [c].

(** Integers below 10^21 print as their decimal digits; the sample covers
    no other finite double (it prints them as nothing). *)
Definition renderFinite (s : bool) (m : positive) (e : Z) : JSString :=
  match e with
  | Zneg _ => []
  | _ =>
      let n := (Zpos m * 2 ^ e)%Z in
      if (n <? 10 ^ 21)%Z
      then (if s then [45] else []) ++ bigIntToString n
      else []
  end.

Definition runtime : Runtime := {|
  unicodePropertyEscapes := true;
  uniLetterOrNumber := letterOrNumber;
  uniToLowerCase := flat_map lowerUnit;
  uniToUpperCase := flat_map upperUnit;
  hasNormalize := true;
  uniNormalizeNFKD := flat_map nfkdUnit;
  finiteNumberToString := renderFinite
|}.

(** The same engine without Unicode property escapes. *)
Definition asciiRuntime : Runtime := {|
  unicodePropertyEscapes := false;
  uniLetterOrNumber := letterOrNumber;
  uniToLowerCase := flat_map lowerUnit;
  uniToUpperCase := flat_map upperUnit;
  hasNormalize := true;
  uniNormalizeNFKD := flat_map nfkdUnit;
  finiteNumberToString := renderFinite
|}.

Definition str (s : string) : JSValue := JSPrim (PString (lit s)).

End Sample.

(** ** backend/routes/api/comments.js *)

Module Comments.

Inductive Body (Doc : Type) :=
  | ErrorBody (error : string)
  | CommentList (comments : list Doc)
  | Deleted (message : string) (comment : Doc).
Arguments ErrorBody {Doc} error.
Arguments CommentList {Doc} comments.
Arguments Deleted {Doc} message comment.

Record Response (Doc : Type) := { status : N; body : Body Doc }.
Arguments status {Doc} r.
Arguments body {Doc} r.

(** The Comment collection, keyed by [_id], and what [console.error] was
    called with. *)
Record World (Doc : Type) := {
  collection : gmap N Doc;
  console : list JSError
}.
Arguments collection {Doc} w.
Arguments console {Doc} w.

Section Router.
Context {Doc : Type}.
(** [mongoose.Types.ObjectId.isValid], and the cast Mongoose applies to the
    id of a query (it throws a CastError when there is none). *)
Variable isValid : JSString -> bool.
Variable castObjectId : JSString -> option N.

(** [res.json(x)] answers with status 200 unless [res.status] was called. *)
Definition json (b : Body Doc) : Response Doc := {| status := 200; body := b |}.
Definition statusJson (code : N) (b : Body Doc) : Response Doc :=
  {| status := code; body := b |}.

(** [Comment.find()]; [dbUp] tells whether the database answers. *)
Definition find (dbUp : bool) (w : World Doc) : Completion (list Doc) :=
  if dbUp then Return ((map_to_list (collection w)).*2)
  else Throw OtherError.

(** [Comment.findByIdAndDelete(id)]. *)
Definition findByIdAndDelete (id : JSString) (dbUp : bool) (w : World Doc)
  : Completion (option Doc) * World Doc :=
  if dbUp then
    match castObjectId id with
    | None => (Throw OtherError, w)
    | Some oid =>
        (Return (collection w !! oid),
         {| collection := delete oid (collection w); console := console w |})
    end
  else (Throw OtherError, w).

(** [router.get("/")] *)
Definition getComments (dbUp : bool) (w : World Doc) : Response Doc * World Doc :=
  match find dbUp w with
  | Return comments => (json (CommentList comments), w)
  | Throw _ => (statusJson 500 (ErrorBody "Failed to fetch comments"), w)
  end.

(** [router.delete("/:id")] *)
Definition deleteComment (id : JSString) (dbUp : bool) (w : World Doc)
  : Response Doc * World Doc :=
  if negb (isValid id)
  then (statusJson 400 (ErrorBody "Invalid comment id"), w)
  else
    match findByIdAndDelete id dbUp w with
    | (Return None, w') =>
        (statusJson 404 (ErrorBody "Comment not found"), w')
    | (Return (Some deletedComment), w') =>
        (json (Deleted "Comment deleted successfully" deletedComment), w')
    | (Throw err, w') =>
        (statusJson 500 (ErrorBody "Failed to delete comment"),
         {| collection := collection w'; console := console w' ++ [err] |})
    end.
End Router.

(** An instance of the two library functions, for running the router: an
    ObjectId is written as 24 hexadecimal digits. *)
Definition isHexDigit (c : N) : bool :=
  isDigit09 c || inRange 65 70 c || inRange 97 102 c.

Definition hexValue (c : N) : N :=
  if isDigit09 c then c - 48
  else if inRange 65 70 c then c - 55
  else c - 87.

Definition hex24 (id : JSString) : bool :=
  (length id =? 24)%nat && forallb isHexDigit id.

Definition parseHex24 (id : JSString) : option N :=
  if hex24 id then Some (fold_left (fun acc c => acc * 16 + hexValue c) id 0)
  else None.

End Comments.

(** ** What the description says, in its own words *)

Module Spec.

(** The words of a string: its maximal contiguous runs of characters of a
    class, in order.  The string is cut into separators and words; a word is
    non-empty, made of class characters, and followed by the end of the
    string or by a separator character. *)
Section Runs.
Context {A : Type} (cls : A -> bool).

Definition startsWithSeparator (s : list A) : Prop :=
  match s with [] => True | c :: _ => cls c = false end.

Inductive MaximalRuns : list A -> list (list A) -> Prop :=
  | runs_none sep :
      Forall (fun c => cls c = false) sep ->
      MaximalRuns sep []
  | runs_word sep w rest ws :
      Forall (fun c => cls c = false) sep ->
      w <> [] ->
      Forall (fun c => cls c = true) w ->
      startsWithSeparator rest ->
      MaximalRuns rest ws ->
      MaximalRuns (sep ++ w ++ rest) (w :: ws).
End Runs.

(** Letters and digits, as the chosen regex sees them: code points with the
    Unicode-aware regex, code units with the ASCII one. *)
Definition Words (rt : Runtime) (re : WordRegex) (s : JSString)
  (ws : list JSString) : Prop :=
  match re with
  | UnicodeWords =>
      exists cws, MaximalRuns (isLetterOrNumber rt) (codePoints s) cws
                  /\ ws = List.map encode cws
  | AsciiWords => MaximalRuns isAsciiAlnum s ws
  end.

(** The joiners. *)
Definition capitalized (rt : Runtime) (w : JSString) : JSString :=
  let lower := toLowerCase rt w in
  toUpperCase rt (firstn 1 lower) ++ skipn 1 lower.

Definition camelJoin (rt : Runtime) (ws : list JSString) : JSString :=
  match ws with
  | [] => []
  | w :: rest => toLowerCase rt w ++ concat (List.map (capitalized rt) rest)
  end.

Definition separatorJoin (rt : Runtime) (sep : N) (ws : list JSString) : JSString :=
  join [sep] (List.map (toLowerCase rt) ws).

(** What is joined: a non-empty string free of the separator. *)
Definition Piece (sep : N) (w : JSString) : Prop := w <> [] /\ ~ In sep w.

(** A separator never comes first, last, or twice in a row. *)
Definition WellSeparated (sep : N) (out : JSString) : Prop :=
  (forall t, out <> sep :: t)
  /\ (forall l, out <> l ++ [sep])
  /\ (forall l1 l2, out <> l1 ++ [sep; sep] ++ l2).

(** Case mapping to lower case yields something for a non-empty string, and
    every ASCII code unit it yields that is not a letter was in the string. *)
Definition LowerCaseConforming (rt : Runtime) : Prop :=
  forall s, s <> [] ->
    uniToLowerCase rt s <> []
    /\ forall c, In c (uniToLowerCase rt s) -> isAscii c = true ->
         isLowerAZ c = true \/ isUpperAZ c = true \/ In c s.

(** Compatibility decomposition turns white space into white space: a blank
    string has no ASCII letter or digit after NFKD. *)
Definition NFKDKeepsBlank (rt : Runtime) : Prop :=
  forall s, forallb isWhiteSpace s = true ->
    Forall (fun c => isAsciiAlnum c = false) (uniNormalizeNFKD rt s).

(** Running a function on its own output. *)
Definition twice (f : JSValue -> Completion JSString) (v : JSValue)
  : Completion JSString :=
  r ← f v; f (JSPrim (PString r)).

(** The same engine with or without Unicode property escapes. *)
Definition withPropertyEscapes (b : bool) (rt : Runtime) : Runtime := {|
  unicodePropertyEscapes := b;
  uniLetterOrNumber := uniLetterOrNumber rt;
  uniToLowerCase := uniToLowerCase rt;
  uniToUpperCase := uniToUpperCase rt;
  hasNormalize := hasNormalize rt;
  uniNormalizeNFKD := uniNormalizeNFKD rt;
  finiteNumberToString := finiteNumberToString rt
|}.

(** Lower and upper case of an ASCII character, by character code:
    'A'..'Z' are 65..90 and 'a'..'z' are 97..122. *)
Definition lowerAscii (c : N) : N :=
  if (65 <=? c) && (c <=? 90) then c + 32 else c.

Definition upperAscii (c : N) : N :=
  if (97 <=? c) && (c <=? 122) then c - 32 else c.

(** The joiners on ASCII words, character by character. *)
Definition asciiCapitalized (w : JSString) : JSString :=
  match w with
  | [] => []
  | c :: rest => upperAscii c :: List.map lowerAscii rest
  end.

Definition asciiCamelJoin (ws : list JSString) : JSString :=
  match ws with
  | [] => []
  | w :: rest => List.map lowerAscii w ++ concat (List.map asciiCapitalized rest)
  end.

Definition asciiSeparatorJoin (sep : N) (ws : list JSString) : JSString :=
  join [sep] (List.map (List.map lowerAscii) ws).

(** A string that the chosen regex finds again as one word: it is not
    empty and all its characters are letters or digits (code points of a
    string of 16-bit code units, with the Unicode-aware regex). *)
Definition FoundAgain (rt : Runtime) (re : WordRegex) (l : JSString) : Prop :=
  l <> []
  /\ match re with
     | UnicodeWords =>
         Forall (fun cp => isLetterOrNumber rt cp = true) (codePoints l)
         /\ Forall (fun c => (c <? 0x10000) = true) l
     | AsciiWords => Forall (fun c => isAsciiAlnum c = true) l
     end.

(** A word that lower-casing keeps a word: in lower case it is found again
    as one word, and lower-casing it once more changes nothing. *)
Definition StableWord (rt : Runtime) (re : WordRegex) (w : JSString) : Prop :=
  FoundAgain rt re (toLowerCase rt w)
  /\ toLowerCase rt (toLowerCase rt w) = toLowerCase rt w.

(** No white space character is a letter or a number. *)
Definition SpaceIsNoLetter (rt : Runtime) : Prop :=
  forall c, isWhiteSpace c = true -> isLetterOrNumber rt c = false.

End Spec.

(** ** A collection to run the router on *)

Module Store.

(** A collection with one comment, and its id as the route receives it. *)
Definition oneComment : Comments.World JSString :=
  {| Comments.collection := {[ 1%N := lit "first!" ]}; Comments.console := [] |}.

Definition idOfFirst : JSString := lit "000000000000000000000001".

Definition empty : Comments.World JSString :=
  {| Comments.collection := ∅; Comments.console := [] |}.

End Store.

(** * Properties *)

Import Spec.

(** ** The examples the sources give in their comments *)

Module DocExamples.
Import Sample.

Example camel_hello_world :
  RefinedPrompt.toCamelCase runtime (str "hello world") = Return (lit "helloWorld").
Proof. reflexivity. Qed.

Example camel_foo_bar_baz :
  RefinedPrompt.toCamelCase runtime (str "  Foo_BAR-baz ") = Return (lit "fooBarBaz").
Proof. reflexivity. Qed.

Example camel_123_user_id :
  RefinedPrompt.toCamelCase runtime (str "123 user id") = Return (lit "123UserId").
Proof. reflexivity. Qed.

Example camel_null : RefinedPrompt.toCamelCase runtime (JSPrim PNull) = Return [].
Proof. reflexivity. Qed.

Example dot_hello_world :
  RefinedPrompt.toDotCase runtime (str "Hello World") = Return (lit "hello.world").
Proof. reflexivity. Qed.

Example dot_123_user_id :
  RefinedPrompt.toDotCase runtime (str "123 user id") = Return (lit "123.user.id").
Proof. reflexivity. Qed.

Example kebab_123_user_id :
  RefinedPrompt.toKebabCase runtime (str "123 user id") = Return (lit "123-user-id").
Proof. reflexivity. Qed.

Example chain_helloWorld :
  ChainPrompt.toKebabCas runtime (str "helloWorld") = Return (lit "hello-world").
Proof. reflexivity. Qed.

Example chain_Hello_world :
  ChainPrompt.toKebabCas runtime (str " Hello_world! ") = Return (lit "hello-world").
Proof. reflexivity. Qed.

Example chain_accents :
  ChainPrompt.toKebabCas runtime
    (JSPrim (PString ([0xC1] ++ lit "ccent " ++ [0xC9] ++ lit "xample")))
  = Return (lit "accent-example").
Proof. reflexivity. Qed.

Example chain_HelloWorld :
  ChainPrompt.toKebabCase runtime (str "HelloWorld") []
  = (Return (lit "hello-world"), []).
Proof. reflexivity. Qed.

Example few_shot_acronym :
  FewShotPrompt.separate (lit "XMLHttp fooBar") = lit "XML Http foo Bar".
Proof. reflexivity. Qed.

Example few_shot_user_id :
  FewShotPrompt.toCamelCase runtime (str "  user_ID 42 ") = Return (lit "userId42").
Proof. reflexivity. Qed.

Example number_42 :
  RefinedPrompt.toKebabCase runtime (JSPrim (PNumber (S754_finite false 21 1)))
  = Return (lit "42").
Proof. reflexivity. Qed.

(** With the fallback regex a letter outside ASCII separates words. *)
Example unicode_regex_keeps_e_acute :
  RefinedPrompt.toKebabCase runtime
    (JSPrim (PString (lit "Caf" ++ [0xC9] ++ lit " au lait")))
  = Return (lit "caf" ++ [0xE9] ++ lit "-au-lait").
Proof. reflexivity. Qed.

Example fallback_regex_splits_at_e_acute :
  RefinedPrompt.toKebabCase asciiRuntime
    (JSPrim (PString (lit "Caf" ++ [0xC9] ++ lit " au lait")))
  = Return (lit "caf-au-lait").
Proof. reflexivity. Qed.

End DocExamples.

(** ** The one-class regex and maximal runs *)

Section RunsFacts.
Context {A : Type} (cls : A -> bool).

Lemma emit_nil (k : list (list A)) : emit [] k = k.
Proof. reflexivity. Qed.

Lemma emit_cons (cur : list A) (k : list (list A)) :
  cur <> [] -> emit cur k = cur :: k.
Proof. destruct cur; [congruence | reflexivity]. Qed.

Lemma match_skip (sep s : list A) :
  Forall (fun c => cls c = false) sep ->
  matchClassPlus cls [] (sep ++ s) = matchClassPlus cls [] s.
Proof.
  induction 1 as [|c sep Hc _ IH]; simpl; [reflexivity|].
  rewrite Hc. exact IH.
Qed.

Lemma match_extend (w : list A) :
  Forall (fun c => cls c = true) w ->
  forall cur s, matchClassPlus cls cur (w ++ s) = matchClassPlus cls (cur ++ w) s.
Proof.
  induction 1 as [|c w Hc _ IH]; intros cur s; simpl.
  - now rewrite app_nil_r.
  - rewrite Hc, IH, <- app_assoc. reflexivity.
Qed.

Lemma match_stop (w rest : list A) :
  w <> [] -> startsWithSeparator cls rest ->
  matchClassPlus cls w rest = w :: matchClassPlus cls [] rest.
Proof.
  intros Hw Hrest. destruct rest as [|c t]; simpl.
  - now rewrite emit_cons.
  - simpl in Hrest. rewrite Hrest. simpl. now rewrite emit_cons.
Qed.

Lemma runs_separator (c : A) (s : list A) (ws : list (list A)) :
  cls c = false -> MaximalRuns cls s ws -> MaximalRuns cls (c :: s) ws.
Proof.
  intros Hc H. destruct H as [sep Hsep | sep w rest ws Hsep Hw Hall Hrest Hruns].
  - apply runs_none. now constructor.
  - change (c :: sep ++ w ++ rest) with ((c :: sep) ++ w ++ rest).
    apply runs_word; auto.
Qed.

(** The scan yields the maximal runs... *)
Lemma match_runs (s : list A) :
  forall cur, Forall (fun c => cls c = true) cur ->
    MaximalRuns cls (cur ++ s) (matchClassPlus cls cur s).
Proof.
  induction s as [|c t IH]; intros cur Hcur; simpl.
  - destruct cur as [|a cur]; simpl.
    + apply runs_none. constructor.
    + apply (runs_word cls [] (a :: cur) [] []); simpl; auto;
        try discriminate.
      apply runs_none. constructor.
  - destruct (cls c) eqn:Hc.
    + replace (cur ++ c :: t) with ((cur ++ [c]) ++ t)
        by now rewrite <- app_assoc.
      apply IH. apply Forall_app. split; [assumption|]. now repeat constructor.
    + specialize (IH [] ltac:(constructor)). simpl in IH.
      destruct cur as [|a cur]; simpl.
      * now apply runs_separator.
      * apply (runs_word cls [] (a :: cur) (c :: t)); simpl; auto;
          try discriminate.
        now apply runs_separator.
Qed.

(** ... and nothing else is. *)
Lemma runs_unique (s : list A) (ws : list (list A)) :
  MaximalRuns cls s ws -> ws = matchClassPlus cls [] s.
Proof.
  induction 1 as [sep Hsep | sep w rest ws Hsep Hw Hall Hrest _ IH].
  - rewrite <- (app_nil_r sep), match_skip by assumption. reflexivity.
  - rewrite match_skip, match_extend by assumption. simpl.
    rewrite match_stop by assumption. now rewrite IH.
Qed.

Lemma match_iff_runs (s : list A) (ws : list (list A)) :
  MaximalRuns cls s ws <-> ws = matchClassPlus cls [] s.
Proof.
  split; [apply runs_unique|].
  intros ->. apply (match_runs s []). constructor.
Qed.

Lemma runs_nonempty (s : list A) (ws : list (list A)) :
  MaximalRuns cls s ws -> Forall (fun w => w <> []) ws.
Proof. induction 1; constructor; auto. Qed.

Lemma runs_class (s : list A) (ws : list (list A)) :
  MaximalRuns cls s ws -> Forall (Forall (fun c => cls c = true)) ws.
Proof. induction 1; constructor; auto. Qed.

(** Every character of a word is a character of the string. *)
Lemma runs_incl (P : A -> Prop) (s : list A) (ws : list (list A)) :
  MaximalRuns cls s ws -> Forall P s -> Forall (Forall P) ws.
Proof.
  induction 1 as [sep Hsep | sep w rest ws Hsep Hw Hall Hrest _ IH];
    intros HP; constructor.
  - apply Forall_app in HP as [_ HP]. now apply Forall_app in HP as [HP _].
  - apply IH. apply Forall_app in HP as [_ HP]. now apply Forall_app in HP as [_ HP].
Qed.

(** Two classes that agree on the characters of a string cut it alike. *)
Lemma match_ext (cls' : A -> bool) (s : list A) :
  Forall (fun c => cls c = cls' c) s ->
  forall cur, matchClassPlus cls cur s = matchClassPlus cls' cur s.
Proof.
  induction 1 as [|c t Hc _ IH]; intros cur; simpl; [reflexivity|].
  rewrite <- Hc. destruct (cls c); now rewrite IH.
Qed.

End RunsFacts.

Section RunsMore.
Context {A : Type} (cls : A -> bool).

Lemma match_only_separators (sep : list A) :
  Forall (fun c => cls c = false) sep ->
  forall cur, matchClassPlus cls cur sep = emit cur [].
Proof.
  induction 1 as [|c sep Hc _ IH]; intros cur; simpl; [reflexivity|].
  rewrite Hc, (IH []). reflexivity.
Qed.

Lemma match_trailing (sep : list A) :
  Forall (fun c => cls c = false) sep ->
  forall s cur, matchClassPlus cls cur (s ++ sep) = matchClassPlus cls cur s.
Proof.
  intros Hsep. induction s as [|c t IH]; intros cur; simpl.
  - now apply match_only_separators.
  - destruct (cls c); now rewrite IH.
Qed.

Lemma match_separators_then (rep s : list A) :
  Forall (fun c => cls c = false) rep -> rep <> [] ->
  forall cur, matchClassPlus cls cur (rep ++ s)
              = emit cur (matchClassPlus cls [] s).
Proof.
  intros Hrep Hne cur. destruct rep as [|c rep]; [congruence|].
  inversion Hrep as [|? ? Hc Hrep']; subst. simpl. rewrite Hc.
  now rewrite match_skip.
Qed.

(** Replacing each separator run by some separators keeps the words. *)
Lemma match_replace (rep : list A) :
  Forall (fun c => cls c = false) rep -> rep <> [] ->
  forall s,
    (forall cur, matchClassPlus cls cur
                   (replaceClassPlus (fun c => negb (cls c)) rep false s)
                 = matchClassPlus cls cur s)
    /\ matchClassPlus cls []
         (replaceClassPlus (fun c => negb (cls c)) rep true s)
       = matchClassPlus cls [] s.
Proof.
  intros Hrep Hne. induction s as [|c t [IHf IHt]]; simpl; [split; reflexivity|].
  destruct (cls c) eqn:Hc; simpl.
  - rewrite Hc. split; [intros cur|]; apply IHf.
  - split; [intros cur|].
    + rewrite match_separators_then by assumption. now rewrite IHt.
    + exact IHt.
Qed.
End RunsMore.

(** ** Strings: split, trim, ASCII *)

Lemma filterBoolean_emit (cur : JSString) (k : list JSString) :
  filterBoolean (cur :: k) = emit cur (filterBoolean k).
Proof. destruct cur; reflexivity. Qed.

(** Splitting on a class and dropping the empty pieces is matching the
    complement class. *)
Lemma split_filter_match (sepc cls : N -> bool) :
  (forall c, sepc c = negb (cls c)) ->
  forall s cur inSep, (inSep = true -> cur = []) ->
    filterBoolean (splitClassPlus sepc cur inSep s) = matchClassPlus cls cur s.
Proof.
  intros Hsep. induction s as [|c t IH]; intros cur inSep Hcur.
  - destruct cur; reflexivity.
  - cbn [splitClassPlus matchClassPlus]. rewrite Hsep. destruct (cls c); simpl.
    + apply IH. discriminate.
    + destruct inSep.
      * rewrite (Hcur eq_refl). simpl. now apply IH.
      * rewrite filterBoolean_emit. f_equal. now apply IH.
Qed.

Lemma trimStart_split (s : JSString) :
  exists pre, s = pre ++ trimStart s /\ Forall (fun c => isWhiteSpace c = true) pre.
Proof.
  induction s as [|c t [pre [Heq Hpre]]]; simpl.
  - exists []. split; [reflexivity | constructor].
  - destruct (isWhiteSpace c) eqn:Hc.
    + exists (c :: pre). split; [simpl; congruence | now constructor].
    + exists []. split; [reflexivity | constructor].
Qed.

Lemma trimEnd_split (s : JSString) :
  exists suf, s = trimEnd s ++ suf /\ Forall (fun c => isWhiteSpace c = true) suf.
Proof.
  unfold trimEnd. destruct (trimStart_split (rev s)) as [pre [Heq Hpre]].
  exists (rev pre). split.
  - rewrite <- rev_app_distr, <- Heq. now rewrite rev_involutive.
  - now apply Forall_rev.
Qed.

Lemma trim_split (s : JSString) :
  exists pre suf, s = pre ++ trim s ++ suf
    /\ Forall (fun c => isWhiteSpace c = true) pre
    /\ Forall (fun c => isWhiteSpace c = true) suf.
Proof.
  destruct (trimStart_split s) as [pre [Hs Hpre]].
  destruct (trimEnd_split (trimStart s)) as [suf [Ht Hsuf]].
  exists pre, suf. unfold trim. now rewrite <- Ht.
Qed.

Lemma trim_Forall (P : N -> Prop) (s : JSString) :
  Forall P s -> Forall P (trim s).
Proof.
  destruct (trim_split s) as [pre [suf [Heq _]]]. intros H.
  rewrite Heq in H. apply Forall_app in H as [_ H].
  now apply Forall_app in H as [H _].
Qed.

Lemma trimStart_blank (s : JSString) :
  Forall (fun c => isWhiteSpace c = true) s -> trimStart s = [].
Proof. induction 1 as [|c t Hc _ IH]; simpl; [reflexivity | now rewrite Hc]. Qed.

Lemma trimStart_keep (s : JSString) :
  match s with [] => True | c :: _ => isWhiteSpace c = false end ->
  trimStart s = s.
Proof. destruct s as [|c t]; simpl; [reflexivity | now intros ->]. Qed.

Lemma trim_blank (s : JSString) :
  trim s = [] <-> Forall (fun c => isWhiteSpace c = true) s.
Proof.
  split.
  - intros H. destruct (trim_split s) as [pre [suf [Heq [Hpre Hsuf]]]].
    rewrite H in Heq. rewrite Heq. simpl. apply Forall_app. now split.
  - intros H. unfold trim. now rewrite trimStart_blank.
Qed.

(** A string that neither starts nor ends with white space is its own trim. *)
Lemma trim_keep (s : JSString) :
  match s with [] => True | c :: _ => isWhiteSpace c = false end ->
  match rev s with [] => True | c :: _ => isWhiteSpace c = false end ->
  trim s = s.
Proof.
  intros Hhead Hlast. unfold trim, trimEnd.
  rewrite (trimStart_keep s Hhead), (trimStart_keep (rev s) Hlast).
  apply rev_involutive.
Qed.

Lemma codePoints_ascii (s : JSString) :
  Forall (fun c => isAscii c = true) s -> codePoints s = s.
Proof.
  induction 1 as [|c t Hc _ IH]; [reflexivity|].
  simpl. destruct t as [|d t']; [reflexivity|].
  replace (isHighSurrogate c) with false
    by (unfold isAscii, isHighSurrogate, inRange in *; lia).
  simpl. simpl in IH. now rewrite IH.
Qed.

Lemma encode_ascii (s : JSString) :
  Forall (fun c => isAscii c = true) s -> encode s = s.
Proof.
  induction 1 as [|c t Hc _ IH]; [reflexivity|].
  unfold encode in *. simpl. rewrite IH. unfold codeUnits.
  replace (c <? 0x10000) with true by (unfold isAscii in Hc; lia).
  reflexivity.
Qed.

Lemma forallb_Forall_true {A : Type} (f : A -> bool) (l : list A) :
  forallb f l = true <-> Forall (fun c => f c = true) l.
Proof. rewrite forallb_forall, List.Forall_forall. reflexivity. Qed.

Lemma forallb_Forall_ascii (s : JSString) :
  forallb isAscii s = true <-> Forall (fun c => isAscii c = true) s.
Proof. apply forallb_Forall_true. Qed.

(** On an ASCII string the two regexes find the same words. *)
Lemma matchWords_ascii (rt : Runtime) (s : JSString) :
  Forall (fun c => isAscii c = true) s ->
  matchWords rt UnicodeWords s = matchWords rt AsciiWords s.
Proof.
  intros Hs. simpl. rewrite codePoints_ascii by assumption.
  rewrite (match_ext (isLetterOrNumber rt) isAsciiAlnum).
  - assert (Hws : Forall (Forall (fun c => isAscii c = true))
                    (matchClassPlus isAsciiAlnum [] s)).
    { apply (runs_incl isAsciiAlnum _ s); [|assumption].
      apply (match_runs isAsciiAlnum s []). constructor. }
    induction Hws as [|w ws Hw _ IH]; simpl; [reflexivity|].
    now rewrite encode_ascii, IH.
  - eapply Forall_impl; [exact Hs|]. intros c Hc. simpl in Hc.
    unfold isLetterOrNumber. now rewrite Hc.
Qed.

Ltac classes :=
  unfold isAsciiAlnum, isLowerOrDigit, isUpperAZ, isLowerAZ, isDigit09,
    isWhiteSpace, isAscii, inRange in *.

Lemma alnum_not_space (c : N) : isAsciiAlnum c = true -> isWhiteSpace c = false.
Proof. classes. lia. Qed.

Lemma alnum_ascii (c : N) : isAsciiAlnum c = true -> isAscii c = true.
Proof. classes. lia. Qed.

Lemma words_iff (rt : Runtime) (re : WordRegex) (s : JSString) (ws : list JSString) :
  Words rt re s ws <-> ws = matchWords rt re s.
Proof.
  destruct re; simpl.
  - split.
    + intros [cws [H ->]]. now rewrite (runs_unique _ _ _ H).
    + intros ->. eexists. split; [|reflexivity]. now apply match_iff_runs.
  - apply match_iff_runs.
Qed.

Lemma join_nil_concat (parts : list JSString) : join [] parts = concat parts.
Proof.
  induction parts as [|p ps IH]; [reflexivity|].
  cbn [join concat]. destruct ps as [|q qs].
  - simpl. now rewrite app_nil_r.
  - now rewrite IH.
Qed.

Lemma capitalize_capitalized (rt : Runtime) (w : JSString) :
  RefinedPrompt.capitalize rt w = capitalized rt w.
Proof.
  unfold RefinedPrompt.capitalize, capitalized.
  now destruct (toLowerCase rt w).
Qed.

(** ** refined_prompt.js: what the three functions return *)

Lemma matchWords_nil (rt : Runtime) (re : WordRegex) : matchWords rt re [] = [].
Proof. now destruct re. Qed.

Lemma refined_outputs (rt : Runtime) (value : JSValue) (s : JSString) :
  isNullish value = false ->
  StringCall rt value = Return s ->
  let ws := matchWords rt (RefinedPrompt.wordRegex rt) (trim s) in
  RefinedPrompt.toKebabCase rt value = Return (separatorJoin rt 45 ws)
  /\ RefinedPrompt.toDotCase rt value = Return (separatorJoin rt 46 ws)
  /\ RefinedPrompt.toCamelCase rt value = Return (camelJoin rt ws).
Proof.
  intros Hnull Hs ws.
  unfold RefinedPrompt.toKebabCase, RefinedPrompt.toDotCase,
    RefinedPrompt.toCamelCase, strMatch.
  rewrite Hnull, Hs. cbn [mbind Completion_bind].
  fold ws. destruct (trim s) as [|c t] eqn:Ht.
  - subst ws. rewrite matchWords_nil. now repeat split.
  - cbn [nonEmpty negb]. destruct ws as [|w ws']; repeat split.
    cbn [camelJoin]. rewrite join_nil_concat.
    now rewrite (map_ext _ _ (capitalize_capitalized rt)).
Qed.

(** ** The kebab-case module: its tokens *)

Lemma replace_chars (s : JSString) :
  forall inMatch,
    Forall (fun c => isAsciiAlnum c = true \/ c = 32)
      (replaceClassPlus (fun c => negb (isAsciiAlnum c)) (lit " ") inMatch s).
Proof.
  induction s as [|c t IH]; intros inMatch; simpl; [constructor|].
  destruct (isAsciiAlnum c) eqn:Hc; simpl.
  - constructor; auto.
  - destruct inMatch; [apply IH|]. constructor; [now right | apply IH].
Qed.

Lemma chain_tokens (rt : Runtime) (s : JSString) :
  ChainPrompt.tokens rt s = matchClassPlus isAsciiAlnum [] (ChainPrompt.spaced rt s).
Proof.
  unfold ChainPrompt.tokens.
  set (x := ChainPrompt.spaced rt s).
  set (r := replaceClassPlus _ _ _ x).
  rewrite (split_filter_match isWhiteSpace (fun c => negb (isWhiteSpace c)));
    [| intros c; now rewrite negb_involutive | discriminate].
  destruct (trim_split r) as [pre [suf [Heq [Hpre Hsuf]]]].
  transitivity (matchClassPlus (fun c => negb (isWhiteSpace c)) [] r).
  - rewrite Heq at 2. rewrite match_skip, match_trailing; [reflexivity| |].
    + eapply Forall_impl; [exact Hsuf|]. simpl. now intros c ->.
    + eapply Forall_impl; [exact Hpre|]. simpl. now intros c ->.
  - rewrite (match_ext _ isAsciiAlnum).
    + subst r. apply (match_replace isAsciiAlnum (lit " ")).
      * repeat constructor.
      * discriminate.
    + eapply Forall_impl; [apply replace_chars|]. simpl.
      intros c [Hc | ->]; [|reflexivity].
      now rewrite (alnum_not_space c Hc), Hc.
Qed.

(** ** Tokenization *)

(** C1, as amended.  In refined_prompt.js the words that [toKebabCase],
    [toDotCase] and [toCamelCase] join are exactly the maximal runs of
    letters and digits of the trimmed string form of the input, for every
    input other than null and undefined whose coercion to a string succeeds;
    no other list of words qualifies.  In few_shot_prompt.js and in the
    kebab-case module the words are the maximal ASCII alphanumeric runs of
    the string after the camelCase-boundary rewriting. *)
Theorem refined_words_are_maximal_runs (rt : Runtime) :
  (forall value s,
      isNullish value = false ->
      StringCall rt value = Return s ->
      exists ws,
        Words rt (RefinedPrompt.wordRegex rt) (trim s) ws
        /\ (forall ws', Words rt (RefinedPrompt.wordRegex rt) (trim s) ws' -> ws' = ws)
        /\ RefinedPrompt.toKebabCase rt value = Return (separatorJoin rt 45 ws)
        /\ RefinedPrompt.toDotCase rt value = Return (separatorJoin rt 46 ws)
        /\ RefinedPrompt.toCamelCase rt value = Return (camelJoin rt ws))
  /\ (forall s,
        MaximalRuns isAsciiAlnum (FewShotPrompt.separate s)
          (FewShotPrompt.partsOf (FewShotPrompt.separate s)))
  /\ (forall s,
        MaximalRuns isAsciiAlnum (ChainPrompt.spaced rt s) (ChainPrompt.tokens rt s)).
Proof.
  split; [|split].
  - intros value s Hnull Hs.
    exists (matchWords rt (RefinedPrompt.wordRegex rt) (trim s)).
    split; [now apply words_iff|].
    split; [intros ws' H; now apply words_iff in H|].
    now apply refined_outputs.
  - intros s. apply match_iff_runs. unfold FewShotPrompt.partsOf.
    apply split_filter_match; [reflexivity | discriminate].
  - intros s. apply match_iff_runs. apply chain_tokens.
Qed.

Lemma refined_words_are_maximal_runs_witness :
  exists ws,
    Words Sample.runtime (RefinedPrompt.wordRegex Sample.runtime)
      (trim (lit "  Foo_BAR-baz ")) ws
    /\ (forall ws', Words Sample.runtime (RefinedPrompt.wordRegex Sample.runtime)
                      (trim (lit "  Foo_BAR-baz ")) ws' -> ws' = ws)
    /\ RefinedPrompt.toKebabCase Sample.runtime (Sample.str "  Foo_BAR-baz ")
       = Return (separatorJoin Sample.runtime 45 ws)
    /\ RefinedPrompt.toDotCase Sample.runtime (Sample.str "  Foo_BAR-baz ")
       = Return (separatorJoin Sample.runtime 46 ws)
    /\ RefinedPrompt.toCamelCase Sample.runtime (Sample.str "  Foo_BAR-baz ")
       = Return (camelJoin Sample.runtime ws).
Proof.
  apply (proj1 (refined_words_are_maximal_runs Sample.runtime)
           (Sample.str "  Foo_BAR-baz ") (lit "  Foo_BAR-baz ")); reflexivity.
Defined.

(** C1, as stated, fails for few_shot_prompt.js: the one alphanumeric run of
    "fooBar" is split into the two words "foo" and "Bar". *)
Lemma few_shot_splits_a_run :
  FewShotPrompt.partsOf (FewShotPrompt.separate (trim (lit "fooBar")))
    = [lit "foo"; lit "Bar"]
  /\ FewShotPrompt.toCamelCase Sample.runtime (Sample.str "fooBar")
    = Return (lit "fooBar")
  /\ MaximalRuns isAsciiAlnum (trim (lit "fooBar")) [lit "fooBar"]
  /\ ~ MaximalRuns isAsciiAlnum (trim (lit "fooBar"))
         (FewShotPrompt.partsOf (FewShotPrompt.separate (trim (lit "fooBar")))).
Proof.
  split; [reflexivity|]. split; [reflexivity|]. split.
  - now apply match_iff_runs.
  - intros H. apply runs_unique in H. vm_compute in H. discriminate.
Qed.

(** ** Joining *)

Lemma imap_as_map {A B : Type} (h : A -> B) (l : list A) :
  forall g : nat -> A -> B, (forall i x, g i x = h x) -> imap g l = List.map h l.
Proof.
  induction l as [|x l IH]; intros g Hg; [reflexivity|].
  cbn [imap List.map]. rewrite Hg. f_equal. apply IH. intros i y. apply Hg.
Qed.

Lemma few_shot_join (rt : Runtime) (ws : list JSString) :
  join [] (imap (FewShotPrompt.mapPart rt) ws) = camelJoin rt ws.
Proof.
  destruct ws as [|w r]; [reflexivity|].
  cbn [imap camelJoin]. rewrite join_nil_concat. cbn [concat].
  change (FewShotPrompt.mapPart rt 0 w) with (toLowerCase rt w).
  f_equal. f_equal. apply imap_as_map. intros i x.
  unfold compose, FewShotPrompt.mapPart, capitalized. cbn [Nat.eqb].
  now destruct (toLowerCase rt x).
Qed.

(** ** The two regexes on ASCII input *)

Lemma StringCall_withPropertyEscapes (b : bool) (rt : Runtime) (value : JSValue) :
  StringCall (withPropertyEscapes b rt) value = StringCall rt value.
Proof.
  destruct value as [[| | | [] | | |]|[[| | | [] | | |]|]]; reflexivity.
Qed.

(** C7.  On a string of ASCII characters the Unicode-aware regex and the
    ASCII fallback find the same words; hence, for an input whose string form
    is ASCII, the functions of refined_prompt.js return the same result
    whichever regex the runtime makes them pick. *)
Theorem ascii_regex_choice_irrelevant (rt : Runtime) (value : JSValue) :
  (forall s, StringCall rt value = Return s -> forallb isAscii s = true) ->
  (forall s, StringCall rt value = Return s ->
     matchWords rt UnicodeWords (trim s) = matchWords rt AsciiWords (trim s))
  /\ RefinedPrompt.toKebabCase (withPropertyEscapes true rt) value
     = RefinedPrompt.toKebabCase (withPropertyEscapes false rt) value
  /\ RefinedPrompt.toCamelCase (withPropertyEscapes true rt) value
     = RefinedPrompt.toCamelCase (withPropertyEscapes false rt) value
  /\ RefinedPrompt.toDotCase (withPropertyEscapes true rt) value
     = RefinedPrompt.toDotCase (withPropertyEscapes false rt) value.
Proof.
  intros Hascii.
  assert (Hwords : forall s, StringCall rt value = Return s ->
            matchWords rt UnicodeWords (trim s) = matchWords rt AsciiWords (trim s)).
  { intros s Hs. apply matchWords_ascii, trim_Forall.
    apply forallb_Forall_ascii. now apply Hascii. }
  split; [exact Hwords|].
  destruct (isNullish value) eqn:Hnull.
  { unfold RefinedPrompt.toKebabCase, RefinedPrompt.toCamelCase,
      RefinedPrompt.toDotCase. rewrite Hnull. now repeat split. }
  destruct (StringCall rt value) as [s|e] eqn:Hs.
  - pose proof (StringCall_withPropertyEscapes true rt value) as Ht.
    pose proof (StringCall_withPropertyEscapes false rt value) as Hf.
    rewrite Hs in Ht, Hf.
    destruct (refined_outputs _ value s Hnull Ht) as [Hk1 [Hd1 Hc1]].
    destruct (refined_outputs _ value s Hnull Hf) as [Hk2 [Hd2 Hc2]].
    rewrite Hk1, Hk2, Hd1, Hd2, Hc1, Hc2.
    change (matchWords (withPropertyEscapes true rt)
              (RefinedPrompt.wordRegex (withPropertyEscapes true rt)) (trim s))
      with (matchWords rt UnicodeWords (trim s)).
    change (matchWords (withPropertyEscapes false rt)
              (RefinedPrompt.wordRegex (withPropertyEscapes false rt)) (trim s))
      with (matchWords rt AsciiWords (trim s)).
    rewrite (Hwords s eq_refl). now repeat split.
  - unfold RefinedPrompt.toKebabCase, RefinedPrompt.toCamelCase,
      RefinedPrompt.toDotCase.
    rewrite Hnull, !StringCall_withPropertyEscapes, Hs. now repeat split.
Qed.

Lemma ascii_regex_choice_irrelevant_witness :
  (forall s, StringCall Sample.runtime (Sample.str "  Foo_BAR-baz ") = Return s ->
     matchWords Sample.runtime UnicodeWords (trim s)
     = matchWords Sample.runtime AsciiWords (trim s))
  /\ RefinedPrompt.toKebabCase (withPropertyEscapes true Sample.runtime)
       (Sample.str "  Foo_BAR-baz ")
     = RefinedPrompt.toKebabCase (withPropertyEscapes false Sample.runtime)
         (Sample.str "  Foo_BAR-baz ")
  /\ RefinedPrompt.toCamelCase (withPropertyEscapes true Sample.runtime)
       (Sample.str "  Foo_BAR-baz ")
     = RefinedPrompt.toCamelCase (withPropertyEscapes false Sample.runtime)
         (Sample.str "  Foo_BAR-baz ")
  /\ RefinedPrompt.toDotCase (withPropertyEscapes true Sample.runtime)
       (Sample.str "  Foo_BAR-baz ")
     = RefinedPrompt.toDotCase (withPropertyEscapes false Sample.runtime)
         (Sample.str "  Foo_BAR-baz ").
Proof.
  apply (ascii_regex_choice_irrelevant Sample.runtime (Sample.str "  Foo_BAR-baz ")).
  intros s Hs. injection Hs as <-. reflexivity.
Defined.

(** ** The comments router *)

(** C10.  A DELETE whose id is not a valid ObjectId is answered with status
    400 and the body [{ error: "Invalid comment id" }], and the collection
    (indeed the whole state) is as before. *)
Theorem invalid_id_is_rejected {Doc : Type} (isValid : JSString -> bool)
    (castObjectId : JSString -> option N) (id : JSString) (dbUp : bool)
    (w : Comments.World Doc) :
  isValid id = false ->
  Comments.deleteComment isValid castObjectId id dbUp w
  = ({| Comments.status := 400;
        Comments.body := Comments.ErrorBody "Invalid comment id" |}, w).
Proof. intros H. unfold Comments.deleteComment. now rewrite H. Qed.

Lemma invalid_id_is_rejected_witness :
  Comments.deleteComment Comments.hex24 Comments.parseHex24 (lit "not-an-id") true
    Store.oneComment
  = ({| Comments.status := 400;
        Comments.body := Comments.ErrorBody "Invalid comment id" |},
     Store.oneComment).
Proof.
  apply (invalid_id_is_rejected Comments.hex24 Comments.parseHex24
           (lit "not-an-id") true Store.oneComment).
  reflexivity.
Defined.

(** C3, as stated, fails: DELETE with the id of a stored comment empties the
    collection, and the same GET is answered differently before and after. *)
Lemma delete_changes_the_collection :
  Comments.deleteComment Comments.hex24 Comments.parseHex24 Store.idOfFirst true
    Store.oneComment
  = (Comments.json (Comments.Deleted "Comment deleted successfully" (lit "first!")),
     Store.empty)
  /\ Store.empty <> Store.oneComment
  /\ fst (Comments.getComments true Store.oneComment)
     <> fst (Comments.getComments true Store.empty).
Proof.
  split; [|split].
  - unfold Comments.deleteComment. vm_compute. reflexivity.
  - intros H.
    apply (f_equal (fun w => Comments.collection w !! 1%N)) in H.
    vm_compute in H. discriminate.
  - vm_compute. discriminate.
Qed.

(** C3, as amended.  GET leaves the state as it is and answers from the
    collection alone; DELETE changes the collection only when it answers 200,
    and then it removes exactly the comment it returns; the only effect of
    the kebab-case wrapper is one [console.error] when the coercion of its
    input throws something that is not a TypeError. *)
Theorem effects_of_the_operations {Doc : Type} (isValid : JSString -> bool)
    (castObjectId : JSString -> option N) (rt : Runtime) :
  (forall dbUp (w : Comments.World Doc),
      snd (Comments.getComments dbUp w) = w)
  /\ (forall dbUp (w w' : Comments.World Doc),
      Comments.collection w = Comments.collection w' ->
      fst (Comments.getComments dbUp w) = fst (Comments.getComments dbUp w'))
  /\ (forall id dbUp (w : Comments.World Doc),
      let (r, w') := Comments.deleteComment isValid castObjectId id dbUp w in
      if (Comments.status r =? 200)%N
      then exists oid d,
          castObjectId id = Some oid
          /\ Comments.collection w !! oid = Some d
          /\ Comments.body r = Comments.Deleted "Comment deleted successfully" d
          /\ Comments.collection w' = delete oid (Comments.collection w)
      else Comments.collection w' = Comments.collection w)
  /\ (forall value console,
      snd (ChainPrompt.toKebabCase rt value console) = console
      \/ (StringCall rt value = Throw OtherError
          /\ ChainPrompt.toKebabCase rt value console
             = (Return [], console ++ [OtherError]))).
Proof.
  repeat split.
  - intros dbUp w. unfold Comments.getComments. now destruct (Comments.find dbUp w).
  - intros dbUp w w' H. unfold Comments.getComments, Comments.find.
    rewrite H. now destruct dbUp.
  - intros id dbUp w. unfold Comments.deleteComment, Comments.findByIdAndDelete.
    destruct (isValid id); simpl; [|reflexivity].
    destruct dbUp; simpl; [|reflexivity].
    destruct (castObjectId id) as [oid|]; simpl; [|reflexivity].
    destruct (Comments.collection w !! oid) as [d|] eqn:Hd; simpl.
    + now exists oid, d.
    + now apply delete_id.
  - intros value console. unfold ChainPrompt.toKebabCase.
    destruct (isSymbol value); [now left|].
    unfold ChainPrompt.toKebabCas.
    destruct (isNullish value); [now left|].
    destruct (StringCall rt value) as [s|[]]; simpl; auto.
Qed.

Lemma effects_of_the_operations_witness :
  fst (Comments.getComments true Store.oneComment)
  = fst (Comments.getComments true
           {| Comments.collection := {[ 1%N := lit "first!" ]};
              Comments.console := [OtherError] |}).
Proof.
  apply (proj1 (proj2 (effects_of_the_operations (Doc := JSString)
                         Comments.hex24 Comments.parseHex24 Sample.runtime))
           true Store.oneComment).
  reflexivity.
Defined.

(** ** Totality *)





(** ** Empty input *)

Lemma splitLowerUpper_plain (s : JSString) :
  Forall (fun c => isAsciiAlnum c = false) s -> Boundary.splitLowerUpper s = s.
Proof.
  induction 1 as [|a t Ha _ IH]; [reflexivity|].
  cbn [Boundary.splitLowerUpper]. destruct t as [|b t']; [reflexivity|].
  replace (isLowerOrDigit a) with false by (classes; lia).
  cbn [andb]. now rewrite IH.
Qed.

Lemma splitAcronymWord_plain (s : JSString) :
  Forall (fun c => isAsciiAlnum c = false) s ->
  forall inTail, Boundary.splitAcronymWord inTail [] s = s.
Proof.
  induction 1 as [|c t Hc _ IH]; intros inTail; [reflexivity|].
  cbn [Boundary.splitAcronymWord].
  replace (isLowerOrDigit c) with false by (classes; lia).
  replace (isUpperAZ c) with false by (classes; lia).
  rewrite andb_false_r. cbn [andb app]. now rewrite IH.
Qed.

Lemma blank_not_alnum (s : JSString) :
  Forall (fun c => isWhiteSpace c = true) s ->
  Forall (fun c => isAsciiAlnum c = false) s.
Proof.
  intros H. eapply Forall_impl; [exact H|]. intros c Hc. simpl in Hc.
  destruct (isAsciiAlnum c) eqn:Ha; [|reflexivity].
  apply alnum_not_space in Ha. congruence.
Qed.

Lemma Forall_filter_keep {A : Type} (P : A -> Prop) (f : A -> bool) (l : list A) :
  Forall P l -> Forall P (List.filter f l).
Proof.
  induction 1 as [|x l Hx _ IH]; simpl; [constructor|].
  destruct (f x); [now constructor | assumption].
Qed.

Lemma chain_blank (rt : Runtime) (s : JSString) :
  NFKDKeepsBlank rt -> trim s = [] -> ChainPrompt.tokens rt s = [].
Proof.
  intros Hnfkd Hs. apply trim_blank in Hs. rewrite chain_tokens.
  assert (Hn : Forall (fun c => isAsciiAlnum c = false) (ChainPrompt.normalized rt s)).
  { unfold ChainPrompt.normalized, normalizeNFKD.
    destruct (hasNormalize rt); [|now apply blank_not_alnum].
    apply Forall_filter_keep.
    destruct (forallb isAscii s); [now apply blank_not_alnum|].
    apply Hnfkd. now apply forallb_forall, List.Forall_forall. }
  unfold ChainPrompt.spaced.
  rewrite (splitLowerUpper_plain _ Hn), (splitAcronymWord_plain _ Hn).
  now rewrite match_only_separators.
Qed.

Lemma symbol_not_blank (d : option JSString) :
  trim (symbolDescriptiveString d) <> [].
Proof.
  intros H. apply trim_blank in H. inversion H as [|c t Hc _]. discriminate Hc.
Qed.

(** C4.  For null and undefined, and for an input whose string form is empty
    once trimmed, every conversion function returns the empty string.  (The
    kebab-case module normalizes before it looks for words; for a blank
    string that is not null or undefined it relies on NFKD turning white
    space into white space.) *)
Theorem empty_input_gives_empty_string (rt : Runtime) (value : JSValue) :
  isNullish value = true
  \/ (exists s, StringCall rt value = Return s /\ trim s = []) ->
  RefinedPrompt.toCamelCase rt value = Return []
  /\ RefinedPrompt.toKebabCase rt value = Return []
  /\ RefinedPrompt.toDotCase rt value = Return []
  /\ FewShotPrompt.toCamelCase rt value = Return []
  /\ (isNullish value = true \/ NFKDKeepsBlank rt ->
      ChainPrompt.toKebabCas rt value = Return []
      /\ forall console,
          ChainPrompt.toKebabCase rt value console = (Return [], console)).
Proof.
  intros [Hnull | [s [Hs Hblank]]].
  - destruct value as [[]|]; try discriminate Hnull; now repeat split.
  - assert (Hsym : isSymbol value = false).
    { destruct value as [[]|]; try reflexivity.
      simpl in Hs. injection Hs as <-. now apply symbol_not_blank in Hblank. }
    assert (Hchain : isNullish value = true \/ NFKDKeepsBlank rt ->
                     ChainPrompt.toKebabCas rt value = Return []).
    { intros Hcond. unfold ChainPrompt.toKebabCas.
      destruct (isNullish value); [reflexivity|].
      destruct Hcond as [Hcond | Hnfkd]; [discriminate Hcond|].
      rewrite Hs. cbn [mbind Completion_bind].
      now rewrite (chain_blank rt s Hnfkd Hblank). }
    unfold RefinedPrompt.toCamelCase, RefinedPrompt.toKebabCase,
      RefinedPrompt.toDotCase, FewShotPrompt.toCamelCase, orElse,
      ChainPrompt.toKebabCase.
    rewrite Hsym.
    destruct (isNullish value), (ToBoolean value);
      rewrite ?Hs; cbn [mbind Completion_bind]; rewrite ?Hblank;
      (repeat split; try reflexivity; try (now apply Hchain);
       intros console; now rewrite Hchain).
Qed.

(** The runtime of [Sample] meets the two conditions on Unicode tables. *)
Lemma sample_nfkd_keeps_blank : NFKDKeepsBlank Sample.runtime.
Proof.
  intros s Hs. simpl.
  apply (proj1 (forallb_Forall_true _ _)) in Hs.
  induction Hs as [|c t Hc _ IH]; simpl; [constructor|].
  apply Forall_app. split; [|exact IH].
  unfold Sample.nfkdUnit.
  repeat match goal with
         | |- context [if ?b then _ else _] => destruct b eqn:?
         end;
    try (exfalso; classes; lia);
    repeat constructor; classes; lia.
Qed.

Lemma sample_lower_case_conforming : LowerCaseConforming Sample.runtime.
Proof.
  intros s Hs. simpl. split.
  - destruct s as [|a t]; [congruence|]. simpl. unfold Sample.lowerUnit.
    repeat match goal with
           | |- context [if ?b then _ else _] => destruct b
           end; discriminate.
  - intros c Hin Hc. apply in_flat_map in Hin as [x [Hx Hin]].
    unfold Sample.lowerUnit in Hin.
    repeat match type of Hin with
           | context [if ?b then _ else _] => destruct b eqn:?
           end;
      simpl in Hin;
      repeat match type of Hin with
             | _ \/ _ => destruct Hin as [Hin | Hin]
             | False => contradiction
             end;
      subst;
      first [ right; right; assumption
            | left; classes; lia
            | exfalso; classes; lia ].
Qed.

Lemma empty_input_gives_empty_string_witness :
  RefinedPrompt.toCamelCase Sample.runtime (JSPrim (PString [32; 0xA0; 9])) = Return []
  /\ RefinedPrompt.toKebabCase Sample.runtime (JSPrim (PString [32; 0xA0; 9])) = Return []
  /\ RefinedPrompt.toDotCase Sample.runtime (JSPrim (PString [32; 0xA0; 9])) = Return []
  /\ FewShotPrompt.toCamelCase Sample.runtime (JSPrim (PString [32; 0xA0; 9])) = Return []
  /\ ChainPrompt.toKebabCas Sample.runtime (JSPrim (PString [32; 0xA0; 9])) = Return []
  /\ (forall console,
        ChainPrompt.toKebabCase Sample.runtime (JSPrim (PString [32; 0xA0; 9])) console
        = (Return [], console)).
Proof.
  destruct (empty_input_gives_empty_string Sample.runtime
              (JSPrim (PString [32; 0xA0; 9])))
    as [Hc [Hk [Hd [Hf Hchain]]]].
  - right. exists [32; 0xA0; 9]. split; reflexivity.
  - destruct (Hchain (or_intror sample_nfkd_keeps_blank)) as [Hcas Hcase].
    repeat split; assumption.
Defined.

(** ** The two [toCamelCase] *)

(** C6, as stated, fails: the two functions differ on "fooBar" (a camelCase
    boundary), on the number 0 (a falsy input) and on "é" (a letter
    outside ASCII). *)
Lemma camel_implementations_differ :
  FewShotPrompt.toCamelCase Sample.runtime (Sample.str "fooBar")
    = Return (lit "fooBar")
  /\ RefinedPrompt.toCamelCase Sample.runtime (Sample.str "fooBar")
    = Return (lit "foobar")
  /\ FewShotPrompt.toCamelCase Sample.runtime (JSPrim (PNumber (S754_zero false)))
    = Return []
  /\ RefinedPrompt.toCamelCase Sample.runtime (JSPrim (PNumber (S754_zero false)))
    = Return (lit "0")
  /\ FewShotPrompt.toCamelCase Sample.runtime (JSPrim (PString [0xE9])) = Return []
  /\ RefinedPrompt.toCamelCase Sample.runtime (JSPrim (PString [0xE9]))
    = Return [0xE9]
  /\ ~ (forall value,
          FewShotPrompt.toCamelCase Sample.runtime value
          = RefinedPrompt.toCamelCase Sample.runtime value).
Proof.
  repeat split; try reflexivity.
  intros H. specialize (H (Sample.str "fooBar")). vm_compute in H. discriminate.
Qed.

Lemma truthy_not_nullish (value : JSValue) :
  ToBoolean value = true -> isNullish value = false.
Proof. destruct value as [[]|]; simpl; congruence. Qed.

Lemma ascii_words (rt : Runtime) (s : JSString) :
  unicodePropertyEscapes rt = false \/ Forall (fun c => isAscii c = true) s ->
  matchWords rt (RefinedPrompt.wordRegex rt) s = matchClassPlus isAsciiAlnum [] s.
Proof.
  unfold RefinedPrompt.wordRegex. intros [H | H].
  - now rewrite H.
  - destruct (unicodePropertyEscapes rt); [|reflexivity].
    now rewrite matchWords_ascii.
Qed.

(** Without capital letters there is no camelCase boundary. *)
Lemma separate_without_capitals (s : JSString) :
  Forall (fun c => isUpperAZ c = false) s -> FewShotPrompt.separate s = s.
Proof.
  intros H. unfold FewShotPrompt.separate.
  assert (H1 : Boundary.splitLowerUpper s = s).
  { induction H as [|a t Ha Ht IH]; [reflexivity|].
    cbn [Boundary.splitLowerUpper]. destruct t as [|b t']; [reflexivity|].
    inversion Ht as [|? ? Hb _]; subst. rewrite Hb, andb_false_r.
    now rewrite IH. }
  rewrite H1. clear H1.
  induction H as [|c t Hc _ IH]; [reflexivity|].
  cbn [Boundary.splitAcronym]. rewrite Hc. cbn [length Nat.leb].
  rewrite andb_false_r. cbn [app]. now rewrite IH.
Qed.

(** C6, as amended.  On a truthy input whose string form is ASCII and, once
    trimmed, is left as it is by the camelCase-boundary rewriting of
    few_shot_prompt.js, the two [toCamelCase] return the same string. *)
Theorem camel_implementations_agree (rt : Runtime) (value : JSValue)
    (s : JSString) :
  ToBoolean value = true ->
  StringCall rt value = Return s ->
  forallb isAscii s = true ->
  FewShotPrompt.separate (trim s) = trim s ->
  FewShotPrompt.toCamelCase rt value = RefinedPrompt.toCamelCase rt value.
Proof.
  intros Htrue Hs Hascii Hsep.
  destruct (refined_outputs rt value s (truthy_not_nullish _ Htrue) Hs)
    as [_ [_ ->]].
  rewrite ascii_words
    by (right; apply trim_Forall; now apply forallb_Forall_ascii).
  unfold FewShotPrompt.toCamelCase, orElse. rewrite Htrue, Hs.
  cbn [mbind Completion_bind]. rewrite Hsep.
  unfold FewShotPrompt.partsOf.
  rewrite (split_filter_match _ isAsciiAlnum) by (reflexivity || discriminate).
  destruct (trim s) as [|c t] eqn:Ht; [reflexivity|].
  cbn [nonEmpty negb].
  destruct (matchClassPlus isAsciiAlnum [] (c :: t)) as [|w r] eqn:Hw;
    [reflexivity|].
  cbn [length Nat.eqb]. now rewrite few_shot_join.
Qed.

Lemma camel_implementations_agree_witness :
  FewShotPrompt.toCamelCase Sample.runtime (Sample.str "  Foo_BAR-baz ")
  = RefinedPrompt.toCamelCase Sample.runtime (Sample.str "  Foo_BAR-baz ").
Proof.
  apply (camel_implementations_agree Sample.runtime (Sample.str "  Foo_BAR-baz ")
           (lit "  Foo_BAR-baz ")); reflexivity.
Defined.

(** ** Joined output *)

Section Join.
Variable sep : N.

Lemma join_cons (w : JSString) (ws : list JSString) :
  ws <> [] -> join [sep] (w :: ws) = w ++ sep :: join [sep] ws.
Proof. destruct ws; [congruence | reflexivity]. Qed.

Lemma join_head (ws : list JSString) :
  ws <> [] -> Forall (Piece sep) ws ->
  exists c t, join [sep] ws = c :: t /\ c <> sep.
Proof.
  intros Hne H. destruct H as [|w ws' [Hw Hin] _]; [congruence|].
  destruct w as [|c w']; [congruence|].
  exists c. destruct ws' as [|w2 r].
  - exists w'. split; [reflexivity|]. intros ->. apply Hin. now left.
  - eexists. split; [reflexivity|]. intros ->. apply Hin. now left.
Qed.

Lemma join_not_last (ws : list JSString) :
  Forall (Piece sep) ws -> forall l, join [sep] ws <> l ++ [sep].
Proof.
  induction 1 as [|w ws [Hw Hin] Hws IH]; intros l Heq.
  - now destruct l.
  - destruct ws as [|w2 r].
    + simpl in Heq. apply Hin. rewrite Heq. apply in_or_app. right. now left.
    + rewrite join_cons in Heq by discriminate.
      destruct (join_head (w2 :: r)) as [c [t [Hj _]]];
        [discriminate | assumption |].
      destruct (exists_last (l := join [sep] (w2 :: r))) as [front [x Hx]];
        [rewrite Hj; discriminate|].
      rewrite Hx in Heq.
      change (w ++ sep :: front ++ [x]) with (w ++ (sep :: front) ++ [x]) in Heq.
      rewrite app_assoc in Heq. apply app_inj_tail in Heq as [_ ->].
      now apply (IH front).
Qed.

(** Where the first separator of a string is, when it starts with a piece. *)
Lemma first_separator (w : JSString) :
  ~ In sep w ->
  forall l1 x y, w ++ sep :: x = l1 ++ sep :: y ->
    (l1 = w /\ x = y) \/ exists l1', l1 = w ++ sep :: l1' /\ x = l1' ++ sep :: y.
Proof.
  induction w as [|a w' IH]; intros Hin l1 x y Heq.
  - destruct l1 as [|b l1']; simpl in Heq.
    + injection Heq as Hx. now left.
    + injection Heq as Hb Hx. right. exists l1'. subst. now split.
  - destruct l1 as [|b l1']; simpl in Heq; injection Heq as Hb Hx.
    + exfalso. apply Hin. left. congruence.
    + subst b. destruct (IH (fun H => Hin (or_intror H)) l1' x y Hx)
        as [[-> ->] | [l1'' [-> ->]]].
      * now left.
      * right. now exists l1''.
Qed.

Lemma join_not_adjacent (ws : list JSString) :
  Forall (Piece sep) ws -> forall l1 l2, join [sep] ws <> l1 ++ [sep; sep] ++ l2.
Proof.
  induction 1 as [|w ws [Hw Hin] Hws IH]; intros l1 l2 Heq.
  - now destruct l1.
  - destruct ws as [|w2 r].
    + simpl in Heq. apply Hin. rewrite Heq. apply in_or_app. right. now left.
    + rewrite join_cons in Heq by discriminate.
      destruct (first_separator w Hin l1 _ _ Heq)
        as [[_ Hj] | [l1' [_ Hj]]].
      * destruct (join_head (w2 :: r)) as [c [t [Hc Hne]]];
          [discriminate | assumption |].
        rewrite Hc in Hj. injection Hj as Hcs _. contradiction.
      * now apply (IH l1' l2).
Qed.

Lemma join_well_separated (ws : list JSString) :
  Forall (Piece sep) ws -> WellSeparated sep (join [sep] ws).
Proof.
  intros H. split; [|split].
  - intros t Heq. destruct ws as [|w ws']; [discriminate|].
    destruct (join_head (w :: ws')) as [c [t' [Hc Hne]]];
      [discriminate | assumption |].
    rewrite Hc in Heq. injection Heq as Hcs _. contradiction.
  - now apply join_not_last.
  - now apply join_not_adjacent.
Qed.
End Join.

(** ** No empty token *)

Lemma codeUnits_not_nil (cp : N) : codeUnits cp <> [].
Proof. unfold codeUnits. now destruct (cp <? 0x10000). Qed.

Lemma encode_not_nil (cps : list N) : cps <> [] -> encode cps <> [].
Proof.
  destruct cps as [|cp t]; [congruence|]. intros _ H.
  unfold encode in H. simpl in H. apply app_eq_nil in H as [H _].
  now apply codeUnits_not_nil in H.
Qed.

(** The ASCII code units of a word made of letters and numbers are ASCII
    letters and digits. *)
Lemma encode_ascii_units (rt : Runtime) (cps : list N) :
  Forall (fun cp => isLetterOrNumber rt cp = true) cps ->
  Forall (fun c => isAscii c = true -> isAsciiAlnum c = true) (encode cps).
Proof.
  induction 1 as [|cp t Hcp _ IH]; [constructor|].
  unfold encode in *. simpl. apply Forall_app. split; [|exact IH].
  unfold codeUnits, isLetterOrNumber in *.
  destruct (cp <? 0x10000) eqn:Hlt.
  - apply List.Forall_cons; [|apply List.Forall_nil].
    intros Ha. now rewrite Ha in Hcp.
  - apply List.Forall_cons; [|apply List.Forall_cons; [|apply List.Forall_nil]];
      intros Ha; exfalso; unfold isAscii in Ha;
      match type of Ha with
      | context [(_ + ?b)%N] => set (q := b) in Ha; clearbody q
      end; lia.
Qed.

Lemma encoded_tokens (rt : Runtime) (cws : list (list N)) :
  Forall (fun w => w <> []) cws ->
  Forall (Forall (fun cp => isLetterOrNumber rt cp = true)) cws ->
  Forall (fun w => w <> []
                   /\ Forall (fun c => isAscii c = true -> isAsciiAlnum c = true) w)
    (List.map encode cws).
Proof.
  induction cws as [|w ws IH]; intros Hne Hcls; simpl; [constructor|].
  inversion Hne; inversion Hcls; subst. constructor; [|now apply IH].
  split; [now apply encode_not_nil | now apply (encode_ascii_units rt)].
Qed.

Lemma ascii_tokens (ws : list JSString) :
  Forall (fun w => w <> []) ws ->
  Forall (Forall (fun c => isAsciiAlnum c = true)) ws ->
  Forall (fun w => w <> []
                   /\ Forall (fun c => isAscii c = true -> isAsciiAlnum c = true) w)
    ws.
Proof.
  induction ws as [|w ws IH]; intros Hne Hcls; [constructor|].
  inversion Hne; inversion Hcls as [|? ? Hcw ?]; subst.
  constructor; [|now apply IH].
  split; [assumption|]. eapply Forall_impl; [exact Hcw|]. now intros.
Qed.

Lemma matchWords_tokens (rt : Runtime) (re : WordRegex) (s : JSString) :
  Forall (fun w => w <> []
                   /\ Forall (fun c => isAscii c = true -> isAsciiAlnum c = true) w)
    (matchWords rt re s).
Proof.
  destruct re; simpl.
  - pose proof (match_runs (isLetterOrNumber rt) (codePoints s) []
                  ltac:(constructor)) as H. simpl in H.
    apply (encoded_tokens rt); [eapply runs_nonempty | eapply runs_class]; exact H.
  - pose proof (match_runs isAsciiAlnum s [] ltac:(constructor)) as H.
    simpl in H.
    apply ascii_tokens; [eapply runs_nonempty | eapply runs_class]; exact H.
Qed.

Lemma asciiLower_alnum (c : N) :
  isAsciiAlnum c = true -> isAsciiAlnum (asciiLower c) = true.
Proof. unfold asciiLower. classes. destruct (_ && _) eqn:H; lia. Qed.

(** A word in lower case is a piece for any ASCII separator that is not a
    letter or a digit.  The condition on the tables is for words that are
    not ASCII. *)
Lemma lower_word_piece (rt : Runtime) (sep : N) (w : JSString) :
  LowerCaseConforming rt \/ forallb isAscii w = true ->
  isAscii sep = true -> isAsciiAlnum sep = false ->
  w <> [] ->
  Forall (fun c => isAscii c = true -> isAsciiAlnum c = true) w ->
  Piece sep (toLowerCase rt w).
Proof.
  intros Hlaw Hsa Hsn Hw Hunits. unfold toLowerCase.
  destruct (forallb isAscii w) eqn:Hascii.
  - split.
    + destruct w; [congruence | discriminate].
    + intros Hin. apply in_map_iff in Hin as [c [Hc Hin]].
      apply forallb_Forall_ascii in Hascii.
      rewrite List.Forall_forall in Hascii, Hunits.
      pose proof (asciiLower_alnum c (Hunits c Hin (Hascii c Hin))) as Hl.
      congruence.
  - destruct Hlaw as [Hlaw | Hlaw]; [|discriminate Hlaw].
    destruct (Hlaw w Hw) as [Hne Hchars]. split; [assumption|].
    intros Hin. destruct (Hchars sep Hin Hsa) as [Hl | [Hu | Hin']].
    + classes. lia.
    + classes. lia.
    + rewrite List.Forall_forall in Hunits.
      pose proof (Hunits sep Hin' Hsa). congruence.
Qed.

Lemma lower_words_pieces (rt : Runtime) (sep : N) (ws : list JSString) :
  LowerCaseConforming rt \/ Forall (fun w => forallb isAscii w = true) ws ->
  isAscii sep = true -> isAsciiAlnum sep = false ->
  Forall (fun w => w <> []
                   /\ Forall (fun c => isAscii c = true -> isAsciiAlnum c = true) w)
    ws ->
  Forall (Piece sep) (List.map (toLowerCase rt) ws).
Proof.
  intros Hlaw Hsa Hsn. induction 1 as [|w ws [Hw Hu] _ IH]; simpl; constructor.
  - apply lower_word_piece; try assumption.
    destruct Hlaw as [Hlaw | Hlaw]; [now left | right]. now inversion Hlaw.
  - apply IH. destruct Hlaw as [Hlaw | Hlaw]; [now left | right].
    now inversion Hlaw.
Qed.

Lemma alnum_words_ascii (ws : list JSString) :
  Forall (Forall (fun c => isAsciiAlnum c = true)) ws ->
  Forall (fun w => forallb isAscii w = true) ws.
Proof.
  intros H. eapply Forall_impl; [exact H|]. intros w Hw.
  apply forallb_Forall_ascii. eapply Forall_impl; [exact Hw|]. apply alnum_ascii.
Qed.

Lemma filterBoolean_nonempty (parts : list JSString) :
  Forall (fun w => w <> []) (filterBoolean parts).
Proof.
  induction parts as [|p ps IH]; simpl; [constructor|].
  destruct p; simpl; [exact IH|]. constructor; [discriminate | exact IH].
Qed.

Lemma WellSeparated_nil (sep : N) : WellSeparated sep [].
Proof.
  repeat split.
  - discriminate.
  - intros l. now destruct l.
  - intros l1 l2. now destruct l1.
Qed.

(** C8.  No token is empty, whichever function produced it; and what
    [toKebabCase] and [toDotCase] return never starts or ends with the
    separator and never has two separators in a row.  (With the
    Unicode-aware regex this rests on lower-casing not producing a
    separator out of letters and numbers.) *)
Theorem no_empty_token (rt : Runtime) :
  (forall re s, Forall (fun w => w <> []) (matchWords rt re s))
  /\ (forall s, Forall (fun w => w <> []) (FewShotPrompt.partsOf s))
  /\ (forall s, Forall (fun w => w <> []) (ChainPrompt.tokens rt s))
  /\ (LowerCaseConforming rt \/ unicodePropertyEscapes rt = false ->
      (forall value out,
          RefinedPrompt.toKebabCase rt value = Return out -> WellSeparated 45 out)
      /\ (forall value out,
          RefinedPrompt.toDotCase rt value = Return out -> WellSeparated 46 out))
  /\ (forall value out,
        ChainPrompt.toKebabCas rt value = Return out -> WellSeparated 45 out).
Proof.
  assert (Hchain : forall s,
            Forall (Forall (fun c => isAsciiAlnum c = true)) (ChainPrompt.tokens rt s)).
  { intros s. rewrite chain_tokens. eapply runs_class.
    apply (match_runs isAsciiAlnum _ []). constructor. }
  assert (Hrefined : LowerCaseConforming rt \/ unicodePropertyEscapes rt = false ->
            forall s sep, isAscii sep = true -> isAsciiAlnum sep = false ->
            WellSeparated sep
              (separatorJoin rt sep
                 (matchWords rt (RefinedPrompt.wordRegex rt) (trim s)))).
  { intros Hlaw s sep Hsa Hsn. apply join_well_separated.
    apply lower_words_pieces; try assumption; [|apply matchWords_tokens].
    destruct Hlaw as [Hlaw | Hre]; [now left | right].
    rewrite ascii_words by now left. apply alnum_words_ascii.
    eapply runs_class. apply (match_runs isAsciiAlnum _ []). constructor. }
  split; [|split; [|split; [|split; [intros Hlaw; split|]]]].
  - intros re s. eapply Forall_impl; [apply matchWords_tokens|].
    now intros w [Hw _].
  - intros s. apply filterBoolean_nonempty.
  - intros s. apply filterBoolean_nonempty.
  - intros value out Hout.
    destruct (isNullish value) eqn:Hnull.
    { unfold RefinedPrompt.toKebabCase in Hout. rewrite Hnull in Hout.
      injection Hout as <-. apply WellSeparated_nil. }
    destruct (StringCall rt value) as [s|e] eqn:Hs.
    + destruct (refined_outputs rt value s Hnull Hs) as [Hk _].
      rewrite Hk in Hout. injection Hout as <-. now apply Hrefined.
    + unfold RefinedPrompt.toKebabCase in Hout. rewrite Hnull, Hs in Hout.
      discriminate Hout.
  - intros value out Hout.
    destruct (isNullish value) eqn:Hnull.
    { unfold RefinedPrompt.toDotCase in Hout. rewrite Hnull in Hout.
      injection Hout as <-. apply WellSeparated_nil. }
    destruct (StringCall rt value) as [s|e] eqn:Hs.
    + destruct (refined_outputs rt value s Hnull Hs) as [_ [Hd _]].
      rewrite Hd in Hout. injection Hout as <-. now apply Hrefined.
    + unfold RefinedPrompt.toDotCase in Hout. rewrite Hnull, Hs in Hout.
      discriminate Hout.
  - intros value out Hout. unfold ChainPrompt.toKebabCas in Hout.
    destruct (isNullish value).
    { injection Hout as <-. apply WellSeparated_nil. }
    destruct (StringCall rt value) as [s|e]; [|discriminate Hout].
    cbn [mbind Completion_bind] in Hout. injection Hout as <-.
    apply join_well_separated. apply lower_words_pieces; try reflexivity.
    + right. apply alnum_words_ascii, Hchain.
    + apply ascii_tokens; [apply filterBoolean_nonempty | apply Hchain].
Qed.

Lemma no_empty_token_witness :
  WellSeparated 45 (lit "a-b") /\ WellSeparated 46 (lit "a.b").
Proof.
  destruct (no_empty_token Sample.runtime) as [_ [_ [_ [Hrefined _]]]].
  destruct (Hrefined (or_introl sample_lower_case_conforming)) as [Hkebab Hdot].
  split.
  - apply (Hkebab (Sample.str "--a--b--")). reflexivity.
  - apply (Hdot (Sample.str "--a--b--")). reflexivity.
Defined.

(** ** Idempotence of [toKebabCase] *)

(** The capital I with a dot above (U+0130) is a letter whose lower case is
    "i" followed by the combining dot above (U+0307), which is a mark; so
    the second pass drops the mark.  This holds on every runtime whose
    tables say so. *)
Lemma dotted_capital_I (rt : Runtime) :
  unicodePropertyEscapes rt = true ->
  uniLetterOrNumber rt 0x130 = true ->
  uniLetterOrNumber rt 0x307 = false ->
  uniToLowerCase rt [0x130] = [0x69; 0x307] ->
  RefinedPrompt.toKebabCase rt (JSPrim (PString [0x130])) = Return [0x69; 0x307]
  /\ twice (RefinedPrompt.toKebabCase rt) (JSPrim (PString [0x130]))
     = Return [0x69].
Proof.
  intros Hu HL HM Hlow.
  assert (H1 : RefinedPrompt.toKebabCase rt (JSPrim (PString [0x130]))
               = Return [0x69; 0x307]).
  { unfold RefinedPrompt.toKebabCase, strMatch, RefinedPrompt.wordRegex.
    rewrite Hu. cbn. unfold isLetterOrNumber. cbn. rewrite HL. cbn.
    unfold toLowerCase. cbn. now rewrite Hlow. }
  split; [exact H1|].
  unfold twice. rewrite H1. cbn [mbind Completion_bind].
  unfold RefinedPrompt.toKebabCase, strMatch, RefinedPrompt.wordRegex.
  rewrite Hu. cbn. unfold isLetterOrNumber. cbn. rewrite HM. cbn.
  reflexivity.
Qed.

(** C9, as stated, fails on a runtime with Unicode property escapes. *)
Lemma kebab_not_idempotent :
  RefinedPrompt.toKebabCase Sample.runtime (JSPrim (PString [0x130]))
    = Return [0x69; 0x307]
  /\ twice (RefinedPrompt.toKebabCase Sample.runtime) (JSPrim (PString [0x130]))
    = Return [0x69]
  /\ ~ (forall value,
          twice (RefinedPrompt.toKebabCase Sample.runtime) value
          = RefinedPrompt.toKebabCase Sample.runtime value).
Proof.
  destruct (dotted_capital_I Sample.runtime) as [H1 H2]; try reflexivity.
  split; [exact H1|]. split; [exact H2|].
  intros H. specialize (H (JSPrim (PString [0x130]))).
  rewrite H1, H2 in H. discriminate H.
Qed.

Lemma join_Forall (P : N -> Prop) (sep : JSString) (ws : list JSString) :
  Forall P sep -> Forall (Forall P) ws -> Forall P (join sep ws).
Proof.
  intros Hsep. induction 1 as [|w ws Hw Hws IH]; [constructor|].
  cbn [join]. destruct ws as [|w2 r]; [assumption|].
  apply Forall_app. split; [assumption|]. apply Forall_app. now split.
Qed.

Lemma trim_without_space (s : JSString) :
  Forall (fun c => isWhiteSpace c = false) s -> trim s = s.
Proof.
  intros H. apply trim_keep.
  - now destruct H.
  - apply Forall_rev in H. now destruct H.
Qed.

(** The words of a joined string are the pieces that were joined. *)
Lemma runs_of_join (cls : N -> bool) (sep : N) (ws : list JSString) :
  cls sep = false ->
  Forall (fun w => w <> [] /\ Forall (fun c => cls c = true) w) ws ->
  MaximalRuns cls (join [sep] ws) ws.
Proof.
  intros Hsep. induction 1 as [|w ws [Hw Hcls] Hws IH].
  - apply runs_none. constructor.
  - destruct ws as [|w2 r].
    + simpl. rewrite <- (app_nil_r w) at 1.
      apply (runs_word cls [] w [] []); simpl; auto;
        solve [constructor | apply runs_none; constructor].
    + rewrite join_cons by discriminate.
      apply (runs_word cls [] w (sep :: join [sep] (w2 :: r))); simpl; auto;
        solve [constructor | now apply runs_separator].
Qed.

Lemma lower_of_word (rt : Runtime) (w : JSString) :
  Forall (fun c => isAsciiAlnum c = true) w ->
  toLowerCase rt w = List.map asciiLower w
  /\ Forall (fun c => isLowerOrDigit c = true) (List.map asciiLower w).
Proof.
  intros H. split.
  - unfold toLowerCase.
    replace (forallb isAscii w) with true; [reflexivity|].
    symmetry. apply forallb_Forall_ascii.
    eapply Forall_impl; [exact H|]. apply alnum_ascii.
  - apply Forall_map. eapply Forall_impl; [exact H|].
    intros c Hc. simpl in Hc. unfold asciiLower. classes.
    destruct (_ && _) eqn:Hu; lia.
Qed.

Lemma lower_of_lower (rt : Runtime) (w : JSString) :
  Forall (fun c => isLowerOrDigit c = true) w -> toLowerCase rt w = w.
Proof.
  intros H. unfold toLowerCase.
  replace (forallb isAscii w) with true.
  - induction H as [|c t Hc _ IH]; [reflexivity|]. simpl. rewrite IH.
    unfold asciiLower. replace (isUpperAZ c) with false by (classes; lia).
    reflexivity.
  - symmetry. apply forallb_Forall_ascii.
    eapply Forall_impl; [exact H|]. intros c Hc. classes. lia.
Qed.

(** Lower-casing the words of an ASCII tokenization: the pieces of the
    output, which lower-casing leaves alone. *)
Lemma lowered_words (rt : Runtime) (ws : list JSString) :
  Forall (fun w => w <> []) ws ->
  Forall (Forall (fun c => isAsciiAlnum c = true)) ws ->
  Forall (fun w => w <> [] /\ Forall (fun c => isLowerOrDigit c = true) w)
    (List.map (toLowerCase rt) ws)
  /\ List.map (toLowerCase rt) (List.map (toLowerCase rt) ws)
     = List.map (toLowerCase rt) ws.
Proof.
  induction ws as [|w ws IH]; intros Hne Hcls; [split; [constructor|reflexivity]|].
  inversion Hne as [|? ? Hw Hne']; inversion Hcls as [|? ? Hcw Hcls']; subst.
  destruct (IH Hne' Hcls') as [IH1 IH2].
  destruct (lower_of_word rt w Hcw) as [Hl Hld].
  cbn [List.map]. rewrite IH2, Hl. split.
  - constructor; [|exact IH1]. split; [|exact Hld].
    destruct w; [congruence | discriminate].
  - now rewrite (lower_of_lower rt _ Hld).
Qed.

Lemma kebab_of_kebab (rt : Runtime) (ws : list JSString) :
  Forall (fun w => w <> []) ws ->
  Forall (Forall (fun c => isAsciiAlnum c = true)) ws ->
  RefinedPrompt.toKebabCase rt (JSPrim (PString (separatorJoin rt 45 ws)))
  = Return (separatorJoin rt 45 ws).
Proof.
  intros Hne Hcls. destruct (lowered_words rt ws Hne Hcls) as [Hpieces Hagain].
  set (out := separatorJoin rt 45 ws).
  assert (Hchars : Forall (fun c => isLowerOrDigit c = true \/ c = 45) out).
  { apply join_Forall; [repeat constructor; now right|].
    eapply Forall_impl; [exact Hpieces|]. intros w [_ Hw].
    eapply Forall_impl; [exact Hw|]. intros c Hc. now left. }
  assert (Htrim : trim out = out).
  { apply trim_without_space. eapply Forall_impl; [exact Hchars|].
    intros c [Hc | ->]; [classes; lia | reflexivity]. }
  assert (Hwords : matchWords rt (RefinedPrompt.wordRegex rt) out
                   = List.map (toLowerCase rt) ws).
  { rewrite ascii_words.
    - symmetry. apply runs_unique. apply runs_of_join; [reflexivity|].
      eapply Forall_impl; [exact Hpieces|]. intros w [Hw Hld].
      split; [assumption|]. eapply Forall_impl; [exact Hld|].
      intros c Hc. classes. lia.
    - right. eapply Forall_impl; [exact Hchars|].
      intros c [Hc | ->]; [classes; lia | reflexivity]. }
  destruct (refined_outputs rt (JSPrim (PString out)) out eq_refl eq_refl)
    as [Hk _].
  rewrite Hk, Htrim, Hwords. unfold out, separatorJoin. now rewrite Hagain.
Qed.

(** [toKebabCase] is idempotent when the runtime falls back to the ASCII
    regex, and on every input whose string form is ASCII: the cases that
    need nothing of the Unicode tables. *)
Lemma kebab_idempotent_on_ascii (rt : Runtime) (value : JSValue) :
  unicodePropertyEscapes rt = false
  \/ (forall s, StringCall rt value = Return s -> forallb isAscii s = true) ->
  twice (RefinedPrompt.toKebabCase rt) value = RefinedPrompt.toKebabCase rt value.
Proof.
  intros Hascii. unfold twice.
  destruct (isNullish value) eqn:Hnull.
  { assert (Hk : RefinedPrompt.toKebabCase rt value = Return [])
      by (unfold RefinedPrompt.toKebabCase; now rewrite Hnull).
    rewrite Hk. reflexivity. }
  destruct (StringCall rt value) as [s|e] eqn:Hs.
  - destruct (refined_outputs rt value s Hnull Hs) as [Hk _].
    rewrite Hk. cbn [mbind Completion_bind].
    rewrite ascii_words.
    + pose proof (match_runs isAsciiAlnum (trim s) [] ltac:(constructor)) as H.
      simpl in H.
      apply kebab_of_kebab; [eapply runs_nonempty | eapply runs_class]; exact H.
    + destruct Hascii as [H | H]; [now left | right].
      apply trim_Forall, forallb_Forall_ascii. now apply H.
  - assert (Hk : RefinedPrompt.toKebabCase rt value = Throw e)
      by (unfold RefinedPrompt.toKebabCase; now rewrite Hnull, Hs).
    rewrite Hk. reflexivity.
Qed.

Lemma kebab_idempotent_on_ascii_witness :
  twice (RefinedPrompt.toKebabCase Sample.runtime) (Sample.str "  Foo_BAR-baz ")
  = RefinedPrompt.toKebabCase Sample.runtime (Sample.str "  Foo_BAR-baz ").
Proof.
  apply (kebab_idempotent_on_ascii Sample.runtime (Sample.str "  Foo_BAR-baz ")).
  right. intros s Hs. injection Hs as <-. reflexivity.
Defined.


(** * Further properties of the sources *)

(** ** The comments router: what a client can rely on *)

Section RouterFacts.
Context {Doc : Type}.
Variable isValid : JSString -> bool.
Variable castObjectId : JSString -> option N.

Lemma listing_of (w : Comments.World Doc) :
  Comments.getComments true w
  = (Comments.json (Comments.CommentList ((map_to_list (Comments.collection w)).*2)), w).
Proof. reflexivity. Qed.

Lemma delete_found (id : JSString) (oid : N) (d : Doc) (w : Comments.World Doc) :
  isValid id = true ->
  castObjectId id = Some oid ->
  Comments.collection w !! oid = Some d ->
  Comments.deleteComment isValid castObjectId id true w
  = (Comments.json (Comments.Deleted "Comment deleted successfully" d),
     {| Comments.collection := delete oid (Comments.collection w);
        Comments.console := Comments.console w |}).
Proof.
  intros Hv Hc Hd. unfold Comments.deleteComment, Comments.findByIdAndDelete.
  now rewrite Hv, Hc, Hd.
Qed.

Lemma delete_missing (id : JSString) (oid : N) (w : Comments.World Doc) :
  isValid id = true ->
  castObjectId id = Some oid ->
  Comments.collection w !! oid = None ->
  Comments.deleteComment isValid castObjectId id true w
  = (Comments.statusJson 404 (Comments.ErrorBody "Comment not found"), w).
Proof.
  intros Hv Hc Hd. unfold Comments.deleteComment, Comments.findByIdAndDelete.
  rewrite Hv, Hc, Hd. cbn [negb]. rewrite (delete_id _ _ Hd).
  now destruct w.
Qed.

(** X1.  GET / with the database up answers 200 with exactly the stored
    comments: as many as the collection holds, and a comment is listed if
    and only if it is stored under some id. *)
Theorem get_lists_the_collection (w : Comments.World Doc) :
  exists l,
    Comments.getComments true w = (Comments.json (Comments.CommentList l), w)
    /\ length l = size (Comments.collection w)
    /\ forall d, In d l <-> exists oid, Comments.collection w !! oid = Some d.
Proof.
  exists ((map_to_list (Comments.collection w)).*2).
  split; [apply listing_of|]. split.
  - now rewrite length_fmap, length_map_to_list.
  - intros d. rewrite <- list_elem_of_In, list_elem_of_fmap. split.
    + intros [[oid d'] [-> Hin]]. exists oid. now apply elem_of_map_to_list.
    + intros [oid Hd]. exists (oid, d). split; [reflexivity|].
      now apply elem_of_map_to_list.
Qed.

(** X2.  DELETE /:id with a valid id of a stored comment answers 200 with
    that comment, removes it, and leaves every other comment and the console
    as they were. *)
Theorem delete_removes_only_that_comment (id : JSString) (oid : N) (d : Doc)
    (w : Comments.World Doc) :
  isValid id = true ->
  castObjectId id = Some oid ->
  Comments.collection w !! oid = Some d ->
  let (r, w') := Comments.deleteComment isValid castObjectId id true w in
  r = Comments.json (Comments.Deleted "Comment deleted successfully" d)
  /\ Comments.collection w' !! oid = None
  /\ (forall j, j <> oid -> Comments.collection w' !! j = Comments.collection w !! j)
  /\ Comments.console w' = Comments.console w.
Proof.
  intros Hv Hc Hd. rewrite (delete_found id oid d w Hv Hc Hd). cbn.
  split; [reflexivity|]. split; [apply lookup_delete_eq|].
  split; [|reflexivity]. intros j Hj. now apply lookup_delete_ne.
Qed.

(** X3.  Deleting the same comment a second time answers 404 "Comment not
    found" and changes nothing. *)
Theorem delete_twice_is_not_found (id : JSString) (oid : N) (d : Doc)
    (w : Comments.World Doc) :
  isValid id = true ->
  castObjectId id = Some oid ->
  Comments.collection w !! oid = Some d ->
  let w' := snd (Comments.deleteComment isValid castObjectId id true w) in
  Comments.deleteComment isValid castObjectId id true w'
  = (Comments.statusJson 404 (Comments.ErrorBody "Comment not found"), w').
Proof.
  intros Hv Hc Hd. rewrite (delete_found id oid d w Hv Hc Hd). cbn.
  apply (delete_missing id oid); try assumption. apply lookup_delete_eq.
Qed.

(** X4.  DELETE /:id with a valid id under which nothing is stored answers
    404 "Comment not found" and leaves the collection and the console as
    they were. *)
Theorem delete_of_unknown_id (id : JSString) (oid : N) (w : Comments.World Doc) :
  isValid id = true ->
  castObjectId id = Some oid ->
  Comments.collection w !! oid = None ->
  Comments.deleteComment isValid castObjectId id true w
  = (Comments.statusJson 404 (Comments.ErrorBody "Comment not found"), w).
Proof. intros Hv Hc Hd. now apply (delete_missing id oid). Qed.

(** X5.  DELETE /:id answers with one of the statuses 200, 400, 404, 500:
    400 exactly for an invalid id, and 500 exactly for a valid id when the
    database fails or the id cannot be cast; in the 500 case the error is
    logged once and the collection is kept.  GET / answers 200 or 500, 500
    exactly when the database fails. *)
Theorem router_statuses (id : JSString) (dbUp : bool) (w : Comments.World Doc) :
  let (r, w') := Comments.deleteComment isValid castObjectId id dbUp w in
  In (Comments.status r) [200; 400; 404; 500]
  /\ (Comments.status r = 400 <-> isValid id = false)
  /\ (Comments.status r = 500 <->
      isValid id = true /\ (dbUp = false \/ castObjectId id = None))
  /\ (Comments.status r = 500 ->
      Comments.collection w' = Comments.collection w
      /\ Comments.console w' = Comments.console w ++ [OtherError])
  /\ (Comments.status (fst (Comments.getComments dbUp w)) = 500 <-> dbUp = false)
  /\ In (Comments.status (fst (Comments.getComments dbUp w))) [200; 500].
Proof.
  unfold Comments.deleteComment, Comments.findByIdAndDelete,
    Comments.getComments, Comments.find.
  destruct (isValid id), dbUp, (castObjectId id) as [oid|]; cbn [negb];
    try destruct (Comments.collection w !! oid); cbn;
    intuition (try discriminate; try congruence; try lia).
Qed.

(** X6.  After a DELETE that answered 200, GET / lists one comment fewer. *)
Theorem get_after_delete (id : JSString) (oid : N) (d : Doc)
    (w : Comments.World Doc) :
  isValid id = true ->
  castObjectId id = Some oid ->
  Comments.collection w !! oid = Some d ->
  let w' := snd (Comments.deleteComment isValid castObjectId id true w) in
  exists l l',
    fst (Comments.getComments true w) = Comments.json (Comments.CommentList l)
    /\ fst (Comments.getComments true w') = Comments.json (Comments.CommentList l')
    /\ length l = S (length l').
Proof.
  intros Hv Hc Hd. rewrite (delete_found id oid d w Hv Hc Hd). cbn [snd].
  rewrite !listing_of. cbn [fst Comments.collection].
  eexists. eexists. split; [reflexivity|]. split; [reflexivity|].
  rewrite !length_fmap, !length_map_to_list.
  rewrite map_size_delete_Some by (now exists d).
  assert (size (Comments.collection w) <> 0%nat).
  { intros H0. apply map_size_empty_inv in H0. rewrite H0 in Hd.
    now rewrite lookup_empty in Hd. }
  lia.
Qed.
End RouterFacts.

Lemma delete_removes_only_that_comment_witness :
  let (r, w') := Comments.deleteComment Comments.hex24 Comments.parseHex24
                   Store.idOfFirst true Store.oneComment in
  r = Comments.json (Comments.Deleted "Comment deleted successfully" (lit "first!"))
  /\ Comments.collection w' !! 1%N = None
  /\ (forall j, j <> 1%N ->
        Comments.collection w' !! j = Comments.collection Store.oneComment !! j)
  /\ Comments.console w' = Comments.console Store.oneComment.
Proof.
  apply (delete_removes_only_that_comment Comments.hex24 Comments.parseHex24
           Store.idOfFirst 1%N (lit "first!") Store.oneComment); reflexivity.
Defined.

Lemma delete_twice_is_not_found_witness :
  let w' := snd (Comments.deleteComment Comments.hex24 Comments.parseHex24
                   Store.idOfFirst true Store.oneComment) in
  Comments.deleteComment Comments.hex24 Comments.parseHex24 Store.idOfFirst true w'
  = (Comments.statusJson 404 (Comments.ErrorBody "Comment not found"), w').
Proof.
  apply (delete_twice_is_not_found Comments.hex24 Comments.parseHex24
           Store.idOfFirst 1%N (lit "first!") Store.oneComment); reflexivity.
Defined.

Lemma delete_of_unknown_id_witness :
  Comments.deleteComment Comments.hex24 Comments.parseHex24
    (lit "0000000000000000000000ff") true Store.oneComment
  = (Comments.statusJson 404 (Comments.ErrorBody "Comment not found"),
     Store.oneComment).
Proof.
  apply (delete_of_unknown_id Comments.hex24 Comments.parseHex24
           (lit "0000000000000000000000ff") 255%N Store.oneComment); reflexivity.
Defined.

Lemma get_after_delete_witness :
  let w' := snd (Comments.deleteComment Comments.hex24 Comments.parseHex24
                   Store.idOfFirst true Store.oneComment) in
  exists l l',
    fst (Comments.getComments true Store.oneComment)
    = Comments.json (Comments.CommentList l)
    /\ fst (Comments.getComments true w') = Comments.json (Comments.CommentList l')
    /\ length l = S (length l').
Proof.
  apply (get_after_delete Comments.hex24 Comments.parseHex24
           Store.idOfFirst 1%N (lit "first!") Store.oneComment); reflexivity.
Defined.

(** ** The camelCase-boundary rewrites *)

Lemma pair_induction {A : Type} (P : list A -> Prop) :
  P [] -> (forall a, P [a]) ->
  (forall a b t, P t -> P (b :: t) -> P (a :: b :: t)) ->
  forall l, P l.
Proof.
  intros Hnil Hone Hstep l.
  assert (H : P l /\ forall a, P (a :: l)); [|apply H].
  induction l as [|b t [IH1 IH2]]; [now split|].
  split; [apply IH2|]. intros a. apply Hstep; [exact IH1 | apply IH2].
Qed.

(** The two forms of the acronym regex rewrite a string alike. *)
Lemma splitAcronymWord_splitAcronym (s : JSString) :
  forall run inTail, (inTail = true -> run = []) ->
    Boundary.splitAcronymWord inTail run s = Boundary.splitAcronym run s.
Proof.
  induction s as [|c t IH]; intros run inTail Hrun; [reflexivity|].
  cbn [Boundary.splitAcronymWord Boundary.splitAcronym].
  destruct (inTail && isLowerOrDigit c) eqn:Htail.
  - apply andb_true_iff in Htail as [-> Hc]. rewrite (Hrun eq_refl).
    replace (isUpperAZ c) with false by (classes; lia).
    rewrite Hc. cbn. now rewrite IH.
  - destruct (isUpperAZ c); [apply IH; discriminate|].
    destruct (isLowerOrDigit c && (2 <=? length run)%nat).
    + now rewrite IH.
    + rewrite IH by discriminate. reflexivity.
Qed.

Lemma spaced_separate (rt : Runtime) (s : JSString) :
  ChainPrompt.spaced rt s = FewShotPrompt.separate (ChainPrompt.normalized rt s).
Proof.
  unfold ChainPrompt.spaced, FewShotPrompt.separate.
  apply splitAcronymWord_splitAcronym. discriminate.
Qed.

Lemma splitLowerUpper_step (a b : N) (t : JSString) :
  Boundary.splitLowerUpper (a :: b :: t)
  = if isLowerOrDigit a && isUpperAZ b
    then a :: 32 :: b :: Boundary.splitLowerUpper t
    else a :: Boundary.splitLowerUpper (b :: t).
Proof. reflexivity. Qed.

Lemma filter_splitLowerUpper (f : N -> bool) (s : JSString) :
  f 32 = false ->
  List.filter f (Boundary.splitLowerUpper s) = List.filter f s.
Proof.
  intros Hf. induction s as [| a | a b t IH1 IH2] using pair_induction;
    [reflexivity | reflexivity |].
  rewrite splitLowerUpper_step.
  destruct (isLowerOrDigit a && isUpperAZ b).
  - cbn [List.filter]. rewrite Hf, IH1. reflexivity.
  - change (a :: Boundary.splitLowerUpper (b :: t))
      with ([a] ++ Boundary.splitLowerUpper (b :: t)).
    rewrite List.filter_app, IH2, <- List.filter_app. reflexivity.
Qed.

Lemma filter_splitAcronym (f : N -> bool) (s : JSString) :
  f 32 = false ->
  forall run, List.filter f (Boundary.splitAcronym run s) = List.filter f (run ++ s).
Proof.
  intros Hf. induction s as [|c t IH]; intros run.
  - now rewrite app_nil_r.
  - cbn [Boundary.splitAcronym]. destruct (isUpperAZ c).
    + rewrite IH, <- app_assoc. reflexivity.
    + destruct (isLowerOrDigit c && (2 <=? length run)%nat) eqn:Hm.
      * apply andb_true_iff in Hm as [_ Hlen]. apply Nat.leb_le in Hlen.
        assert (Hrun : run <> []) by (destruct run; [simpl in Hlen; lia | discriminate]).
        rewrite (app_removelast_last 0 Hrun) at 3.
        rewrite !List.filter_app. cbn [List.filter]. rewrite Hf, IH.
        cbn [app]. rewrite <- app_assoc.
        now destruct (f (List.last run 0)), (f c).
      * rewrite !List.filter_app. cbn [List.filter]. now rewrite IH.
Qed.

(** X7.  The rewriting at camelCase boundaries only inserts spaces: without
    its spaces the rewritten string is the original without its spaces; and
    the two forms of the acronym regex ([[a-z0-9]] and [[a-z0-9]+] in the
    second group) rewrite every string alike. *)
Theorem boundary_rewriting_only_inserts_spaces (s : JSString) :
  List.filter (fun c => negb (c =? 32)) (FewShotPrompt.separate s)
  = List.filter (fun c => negb (c =? 32)) s
  /\ Boundary.splitAcronymWord false [] s = Boundary.splitAcronym [] s.
Proof.
  split.
  - unfold FewShotPrompt.separate.
    rewrite filter_splitAcronym by reflexivity.
    now apply filter_splitLowerUpper.
  - apply splitAcronymWord_splitAcronym. discriminate.
Qed.

(** ** The kebab-case module *)

Lemma filter_all {A : Type} (f : A -> bool) (l : list A) :
  Forall (fun x => f x = true) l -> List.filter f l = l.
Proof. induction 1 as [|x l Hx _ IH]; simpl; [reflexivity | now rewrite Hx, IH]. Qed.

Lemma normalized_ascii (rt : Runtime) (s : JSString) :
  Forall (fun c => isAscii c = true) s -> ChainPrompt.normalized rt s = s.
Proof.
  intros H. unfold ChainPrompt.normalized, normalizeNFKD.
  rewrite (proj2 (forallb_Forall_ascii s) H).
  destruct (hasNormalize rt); [|reflexivity].
  apply filter_all. eapply Forall_impl; [exact H|]. intros c Hc.
  unfold ChainPrompt.isCombiningMark. classes. lia.
Qed.

Lemma partsOf_match (x : JSString) :
  FewShotPrompt.partsOf x = matchClassPlus isAsciiAlnum [] x.
Proof.
  unfold FewShotPrompt.partsOf.
  apply split_filter_match; [reflexivity | discriminate].
Qed.

Lemma chain_tokens_alnum (rt : Runtime) (s : JSString) :
  Forall (fun w => w <> []) (ChainPrompt.tokens rt s)
  /\ Forall (Forall (fun c => isAsciiAlnum c = true)) (ChainPrompt.tokens rt s).
Proof.
  split; [apply filterBoolean_nonempty|].
  rewrite chain_tokens. eapply runs_class.
  apply (match_runs isAsciiAlnum _ []). constructor.
Qed.

Lemma match_trim (s : JSString) :
  matchClassPlus isAsciiAlnum [] (trim s) = matchClassPlus isAsciiAlnum [] s.
Proof.
  destruct (trim_split s) as [pre [suf [Heq [Hpre Hsuf]]]].
  rewrite Heq at 2.
  rewrite match_skip, match_trailing; [reflexivity | |];
    now apply blank_not_alnum.
Qed.

(** What [toKebabCas] and the ASCII [toKebabCase] return: pieces made of
    lower-case letters and digits, joined with '-'. *)
Lemma kebab_chars (rt : Runtime) (ws : list JSString) (sep : N) :
  Forall (fun w => w <> []) ws ->
  Forall (Forall (fun c => isAsciiAlnum c = true)) ws ->
  Forall (fun c => isLowerOrDigit c = true \/ c = sep) (separatorJoin rt sep ws).
Proof.
  intros Hne Hcls. destruct (lowered_words rt ws Hne Hcls) as [Hpieces _].
  apply join_Forall; [repeat constructor; now right|].
  eapply Forall_impl; [exact Hpieces|]. intros w [_ Hw].
  eapply Forall_impl; [exact Hw|]. intros c Hc. now left.
Qed.

Lemma chain_kebab_of_kebab (rt : Runtime) (ws : list JSString) :
  Forall (fun w => w <> []) ws ->
  Forall (Forall (fun c => isAsciiAlnum c = true)) ws ->
  ChainPrompt.toKebabCas rt (JSPrim (PString (separatorJoin rt 45 ws)))
  = Return (separatorJoin rt 45 ws).
Proof.
  intros Hne Hcls. destruct (lowered_words rt ws Hne Hcls) as [Hpieces Hagain].
  pose proof (kebab_chars rt ws 45 Hne Hcls) as Hchars.
  set (out := separatorJoin rt 45 ws) in *.
  assert (Hspaced : ChainPrompt.spaced rt out = out).
  { rewrite spaced_separate, normalized_ascii.
    - apply separate_without_capitals. eapply Forall_impl; [exact Hchars|].
      intros c [Hc | ->]; [classes; lia | reflexivity].
    - eapply Forall_impl; [exact Hchars|].
      intros c [Hc | ->]; [classes; lia | reflexivity]. }
  unfold ChainPrompt.toKebabCas. cbn [isNullish StringCall ToString mbind Completion_bind].
  rewrite chain_tokens, Hspaced.
  replace (matchClassPlus isAsciiAlnum [] out) with (List.map (toLowerCase rt) ws).
  - rewrite Hagain. reflexivity.
  - apply runs_unique. apply runs_of_join; [reflexivity|].
    eapply Forall_impl; [exact Hpieces|]. intros w [Hw Hld].
    split; [assumption|]. eapply Forall_impl; [exact Hld|].
    intros c Hc. classes. lia.
Qed.

(** X8.  On a string of ASCII characters the kebab-case module finds the
    words that few_shot_prompt.js finds in the same string. *)
Theorem chain_and_few_shot_find_the_same_words (rt : Runtime) (s : JSString) :
  forallb isAscii s = true ->
  ChainPrompt.tokens rt s = FewShotPrompt.partsOf (FewShotPrompt.separate s).
Proof.
  intros H. apply forallb_Forall_ascii in H.
  now rewrite chain_tokens, spaced_separate, normalized_ascii, partsOf_match.
Qed.

Lemma chain_and_few_shot_find_the_same_words_witness :
  ChainPrompt.tokens Sample.runtime (lit " XMLHttpRequest_v2 ")
  = FewShotPrompt.partsOf (FewShotPrompt.separate (lit " XMLHttpRequest_v2 ")).
Proof.
  apply (chain_and_few_shot_find_the_same_words Sample.runtime
           (lit " XMLHttpRequest_v2 ")).
  reflexivity.
Defined.

(** X9.  Whatever [toKebabCas] returns is made of lower-case ASCII letters,
    digits and '-' only, and [toKebabCas] returns its own output unchanged:
    it is idempotent on every input, on every runtime. *)
Theorem chain_kebab_is_idempotent (rt : Runtime) (value : JSValue) :
  (forall out, ChainPrompt.toKebabCas rt value = Return out ->
     Forall (fun c => isLowerOrDigit c = true \/ c = 45) out)
  /\ twice (ChainPrompt.toKebabCas rt) value = ChainPrompt.toKebabCas rt value.
Proof.
  unfold twice. destruct (isNullish value) eqn:Hnull.
  { assert (Hk : ChainPrompt.toKebabCas rt value = Return [])
      by (unfold ChainPrompt.toKebabCas; now rewrite Hnull).
    rewrite Hk. split; [intros out [= <-]; constructor|].
    cbn [mbind Completion_bind]. apply (chain_kebab_of_kebab rt []); constructor. }
  destruct (StringCall rt value) as [s|e] eqn:Hs.
  - assert (Hk : ChainPrompt.toKebabCas rt value
                 = Return (separatorJoin rt 45 (ChainPrompt.tokens rt s)))
      by (unfold ChainPrompt.toKebabCas; now rewrite Hnull, Hs).
    rewrite Hk. cbn [mbind Completion_bind].
    destruct (chain_tokens_alnum rt s) as [Hne Hcls]. split.
    + intros out [= <-]. now apply kebab_chars.
    + now apply chain_kebab_of_kebab.
  - assert (Hk : ChainPrompt.toKebabCas rt value = Throw e)
      by (unfold ChainPrompt.toKebabCas; now rewrite Hnull, Hs).
    rewrite Hk. split; [discriminate | reflexivity].
Qed.


(** ** refined_prompt.js: more on what the three functions return *)

Lemma refined_ascii_words (rt : Runtime) (value : JSValue) (s : JSString) :
  unicodePropertyEscapes rt = false
  \/ (forall s, StringCall rt value = Return s -> forallb isAscii s = true) ->
  StringCall rt value = Return s ->
  matchWords rt (RefinedPrompt.wordRegex rt) (trim s)
  = matchClassPlus isAsciiAlnum [] s
  /\ Forall (fun w => w <> []) (matchClassPlus isAsciiAlnum [] s)
  /\ Forall (Forall (fun c => isAsciiAlnum c = true)) (matchClassPlus isAsciiAlnum [] s).
Proof.
  intros Hascii Hs.
  pose proof (match_runs isAsciiAlnum s [] ltac:(constructor)) as H. simpl in H.
  split; [|split; [eapply runs_nonempty | eapply runs_class]; exact H].
  rewrite ascii_words, match_trim; [reflexivity|].
  destruct Hascii as [Hre | Ha]; [now left | right].
  apply trim_Forall, forallb_Forall_ascii. now apply Ha.
Qed.

(** X11.  On an input whose string form has only ASCII characters and no
    capital letter, [toKebabCase] of refined_prompt.js and [toKebabCas] of
    the kebab-case module return the same thing. *)
Theorem refined_and_chain_kebab_agree (rt : Runtime) (value : JSValue) :
  (forall s, StringCall rt value = Return s ->
     forallb isAscii s = true
     /\ forallb (fun c => negb (isUpperAZ c)) s = true) ->
  RefinedPrompt.toKebabCase rt value = ChainPrompt.toKebabCas rt value.
Proof.
  intros H. destruct (isNullish value) eqn:Hnull.
  { unfold RefinedPrompt.toKebabCase, ChainPrompt.toKebabCas. now rewrite Hnull. }
  destruct (StringCall rt value) as [s|e] eqn:Hs.
  - destruct (H s eq_refl) as [Ha Hu].
    destruct (refined_outputs rt value s Hnull Hs) as [-> _].
    assert (Hmode : unicodePropertyEscapes rt = false
                    \/ (forall s, StringCall rt value = Return s ->
                           forallb isAscii s = true)).
    { right. intros s' Hs'. rewrite Hs in Hs'. now apply H. }
    destruct (refined_ascii_words rt value s Hmode Hs) as [-> _].
    unfold ChainPrompt.toKebabCas. rewrite Hnull, Hs.
    cbn [mbind Completion_bind].
    rewrite chain_tokens, spaced_separate, normalized_ascii
      by now apply forallb_Forall_ascii.
    rewrite separate_without_capitals; [reflexivity|].
    apply forallb_Forall_true in Hu. eapply Forall_impl; [exact Hu|].
    intros c Hc. simpl in Hc. now destruct (isUpperAZ c).
  - unfold RefinedPrompt.toKebabCase, ChainPrompt.toKebabCas.
    now rewrite Hnull, Hs.
Qed.

Lemma refined_and_chain_kebab_agree_witness :
  RefinedPrompt.toKebabCase Sample.runtime (Sample.str "  hello_world 42! ")
  = ChainPrompt.toKebabCas Sample.runtime (Sample.str "  hello_world 42! ").
Proof.
  apply (refined_and_chain_kebab_agree Sample.runtime
           (Sample.str "  hello_world 42! ")).
  intros s Hs. injection Hs as <-. split; reflexivity.
Defined.

Lemma refined_pieces (rt : Runtime) (s : JSString) (sep : N) :
  LowerCaseConforming rt \/ unicodePropertyEscapes rt = false ->
  isAscii sep = true -> isAsciiAlnum sep = false ->
  Forall (Piece sep)
    (List.map (toLowerCase rt) (matchWords rt (RefinedPrompt.wordRegex rt) s)).
Proof.
  intros Hlaw Hsa Hsn.
  apply lower_words_pieces; try assumption; [|apply matchWords_tokens].
  destruct Hlaw as [Hlaw | Hre]; [now left | right].
  rewrite ascii_words by now left. apply alnum_words_ascii.
  eapply runs_class. apply (match_runs isAsciiAlnum _ []). constructor.
Qed.

Lemma join_change_separator (a b : N) (ws : list JSString) :
  Forall (Piece a) ws ->
  List.map (fun c => if c =? a then b else c) (join [a] ws) = join [b] ws.
Proof.
  assert (Hpiece : forall w, ~ In a w ->
            List.map (fun c => if c =? a then b else c) w = w).
  { induction w as [|c w IH]; intros Hin; [reflexivity|]. simpl.
    rewrite IH by (intros H; apply Hin; now right).
    destruct (N.eqb_spec c a) as [->|_]; [|reflexivity].
    exfalso. apply Hin. now left. }
  induction 1 as [|w ws [_ Hw] Hws IH]; [reflexivity|].
  destruct ws as [|w2 r]; [now apply Hpiece|].
  rewrite !join_cons by discriminate.
  rewrite map_app. cbn [List.map]. rewrite N.eqb_refl, IH, Hpiece by assumption.
  reflexivity.
Qed.

(** X12.  [toDotCase] returns what [toKebabCase] returns with every '-'
    turned into '.' (with the Unicode-aware regex this rests on lower-casing
    not producing a '-' out of letters and numbers). *)
Theorem dot_case_is_kebab_case_with_dots (rt : Runtime) (value : JSValue)
    (k : JSString) :
  LowerCaseConforming rt \/ unicodePropertyEscapes rt = false ->
  RefinedPrompt.toKebabCase rt value = Return k ->
  RefinedPrompt.toDotCase rt value
  = Return (List.map (fun c => if c =? 45 then 46 else c) k).
Proof.
  intros Hlaw Hk. destruct (isNullish value) eqn:Hnull.
  { unfold RefinedPrompt.toKebabCase in Hk. unfold RefinedPrompt.toDotCase.
    rewrite Hnull in *. now injection Hk as <-. }
  destruct (StringCall rt value) as [s|e] eqn:Hs.
  - destruct (refined_outputs rt value s Hnull Hs) as [Hk' [-> _]].
    rewrite Hk' in Hk. injection Hk as <-. unfold separatorJoin.
    rewrite join_change_separator; [reflexivity|].
    now apply refined_pieces.
  - unfold RefinedPrompt.toKebabCase in Hk. rewrite Hnull, Hs in Hk.
    discriminate Hk.
Qed.

Lemma dot_case_is_kebab_case_with_dots_witness :
  RefinedPrompt.toDotCase Sample.runtime (Sample.str "  Foo_BAR-baz ")
  = Return (List.map (fun c => if c =? 45 then 46 else c) (lit "foo-bar-baz")).
Proof.
  apply (dot_case_is_kebab_case_with_dots Sample.runtime
           (Sample.str "  Foo_BAR-baz ") (lit "foo-bar-baz")).
  - left. exact sample_lower_case_conforming.
  - reflexivity.
Defined.

Lemma upper_of_lower (rt : Runtime) (l : JSString) :
  Forall (fun c => isLowerOrDigit c = true) l ->
  toUpperCase rt l = List.map asciiUpper l
  /\ Forall (fun c => isAsciiAlnum c = true) (List.map asciiUpper l)
  /\ Forall (fun c => isLowerAZ c = false) (List.map asciiUpper l).
Proof.
  intros H. split; [|split].
  - unfold toUpperCase.
    replace (forallb isAscii l) with true; [reflexivity|].
    symmetry. apply forallb_Forall_ascii.
    eapply Forall_impl; [exact H|]. intros c Hc. classes. lia.
  - apply Forall_map. eapply Forall_impl; [exact H|].
    intros c Hc. simpl in Hc. unfold asciiUpper. classes.
    destruct (_ && _) eqn:Hu; lia.
  - apply Forall_map. eapply Forall_impl; [exact H|].
    intros c Hc. simpl in Hc. unfold asciiUpper. classes.
    destruct (_ && _) eqn:Hu; lia.
Qed.

Lemma Forall_firstn_skipn {A : Type} (P : A -> Prop) (n : nat) (l : list A) :
  Forall P l -> Forall P (firstn n l) /\ Forall P (skipn n l).
Proof.
  intros H. rewrite <- (firstn_skipn n l) in H. now apply Forall_app in H.
Qed.

(** A capitalized ASCII word: as long as the word, made of letters and
    digits. *)
Lemma capitalized_word (rt : Runtime) (w : JSString) :
  Forall (fun c => isAsciiAlnum c = true) w ->
  Forall (fun c => isAsciiAlnum c = true) (capitalized rt w)
  /\ length (capitalized rt w) = length w.
Proof.
  intros H. unfold capitalized. cbv zeta.
  destruct (lower_of_word rt w H) as [-> Hl].
  destruct (Forall_firstn_skipn _ 1 _ Hl) as [Hf Hs].
  destruct (upper_of_lower rt _ Hf) as [-> [Hu _]].
  split.
  - apply Forall_app. split; [exact Hu|].
    eapply Forall_impl; [exact Hs|]. intros c Hc. classes. lia.
  - rewrite length_app, !length_map, <- length_app, firstn_skipn.
    apply length_map.
Qed.

(** What the camelCase joiner makes of ASCII words. *)
Lemma camel_chars (rt : Runtime) (ws : list JSString) :
  Forall (fun w => w <> []) ws ->
  Forall (Forall (fun c => isAsciiAlnum c = true)) ws ->
  Forall (fun c => isAsciiAlnum c = true) (camelJoin rt ws)
  /\ match camelJoin rt ws with
     | [] => ws = []
     | c :: _ => isUpperAZ c = false
     end
  /\ length (camelJoin rt ws) = length (concat ws).
Proof.
  intros Hne Hcls. destruct ws as [|w rest]; [now repeat split|].
  inversion Hne as [|? ? Hw Hne']; inversion Hcls as [|? ? Hcw Hcls']; subst.
  cbn [camelJoin concat]. destruct (lower_of_word rt w Hcw) as [-> Hl].
  assert (Hrest : Forall (fun c => isAsciiAlnum c = true)
                    (concat (List.map (capitalized rt) rest))
                  /\ length (concat (List.map (capitalized rt) rest))
                     = length (concat rest)).
  { clear Hne' Hne Hcls. induction Hcls' as [|x r Hx _ IH]; [now split|].
    destruct IH as [IH1 IH2]. destruct (capitalized_word rt x Hx) as [Hc Hlen].
    cbn [List.map concat]. split.
    - apply Forall_app. now split.
    - rewrite !length_app. lia. }
  destruct Hrest as [Hr1 Hr2]. split; [|split].
  - apply Forall_app. split; [|exact Hr1].
    eapply Forall_impl; [exact Hl|]. intros c Hc. classes. lia.
  - destruct w as [|c w']; [congruence|]. cbn [List.map app].
    inversion Hl as [|? ? Hc _]; subst. classes. lia.
  - rewrite !length_app, length_map. lia.
Qed.

Lemma head_not_capital (out : JSString) (ws : list JSString) :
  match out with [] => ws = [] | c :: _ => isUpperAZ c = false end ->
  match out with [] => True | c :: _ => isUpperAZ c = false end.
Proof. now destruct out. Qed.

(** X13.  When the runtime falls back to the ASCII regex, or the string form
    of the input is ASCII: [toKebabCase] returns only lower-case letters,
    digits and '-', [toDotCase] only lower-case letters, digits and '.', and
    [toCamelCase] only ASCII letters and digits, never starting with a
    capital. *)
Theorem refined_output_alphabet (rt : Runtime) (value : JSValue) :
  unicodePropertyEscapes rt = false
  \/ (forall s, StringCall rt value = Return s -> forallb isAscii s = true) ->
  (forall out, RefinedPrompt.toKebabCase rt value = Return out ->
     Forall (fun c => isLowerOrDigit c = true \/ c = 45) out)
  /\ (forall out, RefinedPrompt.toDotCase rt value = Return out ->
     Forall (fun c => isLowerOrDigit c = true \/ c = 46) out)
  /\ (forall out, RefinedPrompt.toCamelCase rt value = Return out ->
     Forall (fun c => isAsciiAlnum c = true) out
     /\ match out with [] => True | c :: _ => isUpperAZ c = false end).
Proof.
  intros Hmode. destruct (isNullish value) eqn:Hnull.
  { unfold RefinedPrompt.toKebabCase, RefinedPrompt.toDotCase,
      RefinedPrompt.toCamelCase. rewrite Hnull.
    split; [|split]; intros out [= <-];
      [constructor | constructor | now split]. }
  destruct (StringCall rt value) as [s|e] eqn:Hs.
  - destruct (refined_outputs rt value s Hnull Hs) as [-> [-> ->]].
    assert (Hmode' : unicodePropertyEscapes rt = false
                     \/ (forall s, StringCall rt value = Return s ->
                            forallb isAscii s = true))
      by (now rewrite Hs).
    destruct (refined_ascii_words rt value s Hmode' Hs) as [-> [Hne Hcls]].
    split; [|split]; intros out [= <-].
    + now apply kebab_chars.
    + now apply kebab_chars.
    + destruct (camel_chars rt _ Hne Hcls) as [Hc [Hh _]].
      split; [exact Hc|]. now apply (head_not_capital _ _ Hh).
  - unfold RefinedPrompt.toKebabCase, RefinedPrompt.toDotCase,
      RefinedPrompt.toCamelCase. rewrite Hnull, Hs.
    split; [|split]; discriminate.
Qed.

Lemma refined_output_alphabet_witness :
  Forall (fun c => isLowerOrDigit c = true \/ c = 45) (lit "foo-bar-baz")
  /\ Forall (fun c => isLowerOrDigit c = true \/ c = 46) (lit "foo.bar.baz")
  /\ Forall (fun c => isAsciiAlnum c = true) (lit "fooBarBaz").
Proof.
  destruct (refined_output_alphabet Sample.runtime (Sample.str "  Foo_BAR-baz "))
    as [Hk [Hd Hc]].
  - right. intros s Hs. injection Hs as <-. reflexivity.
  - split; [|split].
    + apply Hk. reflexivity.
    + apply Hd. reflexivity.
    + apply Hc. reflexivity.
Defined.

(** X14.  Whatever [toCamelCase] of few_shot_prompt.js returns is made of
    ASCII letters and digits only and does not start with a capital, for
    every input and runtime. *)
Theorem few_shot_output_alphabet (rt : Runtime) (value : JSValue)
    (out : JSString) :
  FewShotPrompt.toCamelCase rt value = Return out ->
  Forall (fun c => isAsciiAlnum c = true) out
  /\ match out with [] => True | c :: _ => isUpperAZ c = false end.
Proof.
  unfold FewShotPrompt.toCamelCase.
  destruct (StringCall rt _) as [s|e]; cbn [mbind Completion_bind];
    [|discriminate].
  destruct (negb (nonEmpty (trim s))); [intros [= <-]; now split|].
  cbv zeta. rewrite few_shot_join, partsOf_match.
  pose proof (match_runs isAsciiAlnum (FewShotPrompt.separate (trim s)) []
                ltac:(constructor)) as H. simpl in H.
  destruct (camel_chars rt _ (runs_nonempty _ _ _ H) (runs_class _ _ _ H))
    as [Hc [Hh _]].
  destruct (length _ =? 0)%nat; intros [= <-]; [now split|].
  split; [exact Hc|]. now apply (head_not_capital _ _ Hh).
Qed.

Lemma few_shot_output_alphabet_witness :
  Forall (fun c => isAsciiAlnum c = true) (lit "xmlHttpRequest")
  /\ match lit "xmlHttpRequest" with [] => True | c :: _ => isUpperAZ c = false end.
Proof.
  apply (few_shot_output_alphabet Sample.runtime (Sample.str "XMLHttpRequest")
           (lit "xmlHttpRequest")).
  reflexivity.
Defined.

Lemma join_match_length (cls : N -> bool) (sep : N) (s : JSString) :
  forall cur,
    (length (join [sep] (matchClassPlus cls cur s)) <= length cur + length s)%nat.
Proof.
  induction s as [|c t IH]; intros cur.
  - destruct cur; simpl; [lia|]. rewrite app_nil_r || idtac. simpl. lia.
  - cbn [matchClassPlus]. destruct (cls c).
    + specialize (IH (cur ++ [c])). rewrite length_app in IH. simpl in *. lia.
    + specialize (IH []). destruct cur as [|a cur]; [simpl in *; lia|].
      cbn [emit]. destruct (matchClassPlus cls [] t) as [|w ws] eqn:Hm.
      * simpl. lia.
      * rewrite join_cons by discriminate.
        rewrite length_app. cbn [length] in *. lia.
Qed.

Lemma join_map_length (f : JSString -> JSString) (sep : N) (ws : list JSString) :
  Forall (fun w => length (f w) = length w) ws ->
  length (join [sep] (List.map f ws)) = length (join [sep] ws).
Proof.
  induction 1 as [|w ws Hw Hws IH]; [reflexivity|].
  destruct ws as [|w2 r]; [exact Hw|].
  cbn [List.map].
  rewrite (join_cons sep (f w)), (join_cons sep w) by discriminate.
  rewrite !length_app. cbn [length]. cbn [List.map] in IH. lia.
Qed.

Lemma concat_le_join (sep : N) (ws : list JSString) :
  (length (concat ws) <= length (join [sep] ws))%nat.
Proof.
  induction ws as [|w ws IH]; [simpl; lia|].
  destruct ws as [|w2 r].
  - simpl. rewrite app_nil_r. lia.
  - rewrite join_cons by discriminate.
    change (concat (w :: w2 :: r)) with (w ++ concat (w2 :: r)).
    rewrite !length_app. cbn [length]. lia.
Qed.

Lemma lower_keeps_length (rt : Runtime) (ws : list JSString) :
  Forall (Forall (fun c => isAsciiAlnum c = true)) ws ->
  Forall (fun w => length (toLowerCase rt w) = length w) ws.
Proof.
  intros H. eapply Forall_impl; [exact H|]. intros w Hw.
  destruct (lower_of_word rt w Hw) as [-> _]. apply length_map.
Qed.

(** X15.  When the runtime falls back to the ASCII regex, or the string form
    of the input is ASCII, what [toKebabCase], [toDotCase] and [toCamelCase]
    return is never longer than the string form of the input. *)
Theorem refined_output_is_not_longer (rt : Runtime) (value : JSValue)
    (s : JSString) :
  unicodePropertyEscapes rt = false
  \/ (forall s, StringCall rt value = Return s -> forallb isAscii s = true) ->
  StringCall rt value = Return s ->
  forall out,
    RefinedPrompt.toKebabCase rt value = Return out
    \/ RefinedPrompt.toDotCase rt value = Return out
    \/ RefinedPrompt.toCamelCase rt value = Return out ->
    (length out <= length s)%nat.
Proof.
  intros Hmode Hs out Hout. destruct (isNullish value) eqn:Hnull.
  { unfold RefinedPrompt.toKebabCase, RefinedPrompt.toDotCase,
      RefinedPrompt.toCamelCase in Hout. rewrite Hnull in Hout.
    destruct Hout as [[= <-] | [[= <-] | [= <-]]]; simpl; lia. }
  destruct (refined_outputs rt value s Hnull Hs) as [Hk [Hd Hc]].
  destruct (refined_ascii_words rt value s Hmode Hs) as [Hw [Hne Hcls]].
  rewrite Hk, Hd, Hc, Hw in Hout.
  pose proof (join_match_length isAsciiAlnum 45 s []) as H45.
  pose proof (join_match_length isAsciiAlnum 46 s []) as H46.
  pose proof (lower_keeps_length rt _ Hcls) as Hlen.
  destruct Hout as [[= <-] | [[= <-] | [= <-]]].
  - unfold separatorJoin. rewrite join_map_length by assumption. simpl in H45. lia.
  - unfold separatorJoin. rewrite join_map_length by assumption. simpl in H46. lia.
  - destruct (camel_chars rt _ Hne Hcls) as [_ [_ ->]].
    pose proof (concat_le_join 45 (matchClassPlus isAsciiAlnum [] s)).
    simpl in H45. lia.
Qed.

Lemma refined_output_is_not_longer_witness :
  (length (lit "foo-bar-baz") <= length (lit "  Foo_BAR-baz "))%nat.
Proof.
  apply (refined_output_is_not_longer Sample.runtime (Sample.str "  Foo_BAR-baz ")
           (lit "  Foo_BAR-baz ")).
  - right. intros s Hs. injection Hs as <-. reflexivity.
  - reflexivity.
  - left. reflexivity.
Defined.

(** ** Words are pieces of the input *)

Lemma codePoints_step (hi lo : N) (t : JSString) :
  codePoints (hi :: lo :: t)
  = if isHighSurrogate hi && isLowSurrogate lo
    then (0x10000 + (hi - 0xD800) * 0x400 + (lo - 0xDC00)) :: codePoints t
    else hi :: codePoints (lo :: t).
Proof. reflexivity. Qed.

Lemma surrogate_pair (hi lo : N) :
  isHighSurrogate hi = true -> isLowSurrogate lo = true ->
  codeUnits (0x10000 + (hi - 0xD800) * 0x400 + (lo - 0xDC00)) = [hi; lo].
Proof.
  unfold isHighSurrogate, isLowSurrogate, inRange, codeUnits. intros Hh Hl.
  replace (_ <? 0x10000) with false by lia.
  replace (0x10000 + (hi - 0xD800) * 0x400 + (lo - 0xDC00) - 0x10000)
    with ((lo - 0xDC00) + (hi - 0xD800) * 0x400) by lia.
  rewrite N.div_add by lia. rewrite N.Div0.mod_add.
  rewrite N.div_small by lia. rewrite N.mod_small by lia.
  f_equal; [lia | f_equal; lia].
Qed.

(** Reading a string of 16-bit code units as code points and writing the
    code points back gives the string. *)
Lemma encode_codePoints (s : JSString) :
  Forall (fun c => (c <? 0x10000) = true) s -> encode (codePoints s) = s.
Proof.
  induction s as [| a | a b t IH1 IH2] using pair_induction; intros H.
  - reflexivity.
  - inversion H as [|? ? Ha _]; subst. unfold encode. simpl. unfold codeUnits.
    now rewrite Ha.
  - inversion H as [|? ? Ha Hbt]; subst. inversion Hbt as [|? ? Hb Ht]; subst.
    rewrite codePoints_step.
    destruct (isHighSurrogate a && isLowSurrogate b) eqn:Hpair.
    + apply andb_true_iff in Hpair as [Hh Hl].
      unfold encode in *. cbn [flat_map].
      rewrite (surrogate_pair a b Hh Hl), (IH1 Ht). reflexivity.
    + unfold encode in *. cbn [flat_map]. rewrite (IH2 Hbt).
      unfold codeUnits. now rewrite Ha.
Qed.

Lemma runs_substring {A : Type} (cls : A -> bool) (s : list A)
    (ws : list (list A)) :
  MaximalRuns cls s ws ->
  forall w, In w ws -> exists pre suf, s = pre ++ w ++ suf.
Proof.
  induction 1 as [sep Hsep | sep w0 rest ws Hsep Hw Hall Hrest _ IH];
    intros w Hin; [contradiction|].
  destruct Hin as [<- | Hin].
  - now exists sep, rest.
  - destruct (IH w Hin) as [pre [suf ->]].
    exists (sep ++ w0 ++ pre), suf. now rewrite <- !app_assoc.
Qed.

(** X16.  Every word the regexes of refined_prompt.js find is a contiguous
    piece of the string: tokenizing drops characters but never changes or
    reorders them.  (A string is made of 16-bit code units.) *)
Theorem words_are_pieces_of_the_string (rt : Runtime) (re : WordRegex)
    (s w : JSString) :
  Forall (fun c => (c <? 0x10000) = true) s ->
  In w (matchWords rt re (trim s)) ->
  exists pre suf, s = pre ++ w ++ suf.
Proof.
  intros Hs Hin.
  destruct (trim_split s) as [p [q [Heq _]]].
  assert (Hpiece : exists pre suf, trim s = pre ++ w ++ suf).
  { destruct re; simpl in Hin.
    - apply in_map_iff in Hin as [cw [<- Hin]].
      pose proof (match_runs (isLetterOrNumber rt) (codePoints (trim s)) []
                    ltac:(constructor)) as H. simpl in H.
      destruct (runs_substring _ _ _ H cw Hin) as [a [b Hab]].
      exists (encode a), (encode b).
      rewrite <- (encode_codePoints (trim s)) by now apply trim_Forall.
      rewrite Hab. unfold encode. now rewrite !flat_map_app.
    - pose proof (match_runs isAsciiAlnum (trim s) [] ltac:(constructor)) as H.
      simpl in H. exact (runs_substring _ _ _ H w Hin). }
  destruct Hpiece as [pre [suf Hw]].
  exists (p ++ pre), (suf ++ q). rewrite Heq at 1. rewrite Hw.
  now rewrite <- !app_assoc.
Qed.

Lemma words_are_pieces_of_the_string_witness :
  exists pre suf, [32; 0xC9; 0x74; 0xE9; 33] = pre ++ [0xC9; 0x74; 0xE9] ++ suf.
Proof.
  apply (words_are_pieces_of_the_string Sample.runtime UnicodeWords
           [32; 0xC9; 0x74; 0xE9; 33] [0xC9; 0x74; 0xE9]).
  - repeat constructor.
  - left. reflexivity.
Defined.

(** ** The earlier declarations of [toKebabCase] *)


Lemma matchWords_ascii_words (rt : Runtime) (re : WordRegex) (s : JSString) :
  Forall (fun c => isAscii c = true) s ->
  Forall (Forall (fun c => isAscii c = true)) (matchWords rt re s).
Proof.
  intros H.
  assert (Ha : Forall (Forall (fun c => isAscii c = true))
                 (matchWords rt AsciiWords s)).
  { simpl. apply (runs_incl isAsciiAlnum _ s); [|assumption].
    apply (match_runs isAsciiAlnum s []). constructor. }
  destruct re; [now rewrite matchWords_ascii | exact Ha].
Qed.

(** X18.  On an input whose string form is ASCII, the first declaration of
    [toKebabCase] (the one that normalizes to NFC) does what the second
    does, whatever the NFC table. *)
Theorem first_kebab_on_ascii (uniNormalizeNFC : JSString -> JSString)
    (hasConsole : bool) (rt : Runtime) (value : JSValue)
    (console : list JSError) :
  (forall s, StringCall rt value = Return s -> forallb isAscii s = true) ->
  RefinedPromptFirst.toKebabCase uniNormalizeNFC hasConsole rt value console
  = RefinedPromptSecond.toKebabCase hasConsole rt value console.
Proof.
  intros Hascii.
  unfold RefinedPromptFirst.toKebabCase, RefinedPromptSecond.toKebabCase.
  replace (RefinedPromptFirst.tryBlock uniNormalizeNFC rt value)
    with (RefinedPromptSecond.tryBlock rt value); [reflexivity|].
  unfold RefinedPromptFirst.tryBlock, RefinedPromptSecond.tryBlock.
  destruct (isNullish value); [reflexivity|].
  destruct (StringCall rt value) as [s|e]; [|reflexivity].
  cbn [mbind Completion_bind].
  destruct (negb (nonEmpty (trim s))); [reflexivity|]. cbv zeta.
  assert (Ht : Forall (fun c => isAscii c = true) (trim s))
    by (apply trim_Forall, forallb_Forall_ascii; now apply Hascii).
  assert (Hnfc : forall x, Forall (fun c => isAscii c = true) x ->
            (if hasNormalize rt then RefinedPromptFirst.normalizeNFC uniNormalizeNFC x
             else x) = x).
  { intros x Hx. destruct (hasNormalize rt); [|reflexivity].
    unfold RefinedPromptFirst.normalizeNFC.
    now rewrite (proj2 (forallb_Forall_ascii x) Hx). }
  rewrite (Hnfc _ Ht). unfold strMatch.
  pose proof (matchWords_ascii_words rt (RefinedPrompt.wordRegex rt) (trim s) Ht)
    as Hws.
  destruct (matchWords rt (RefinedPrompt.wordRegex rt) (trim s)) as [|w ws];
    [reflexivity|].
  cbn [length Nat.eqb]. do 2 f_equal.
  apply map_ext_in. intros x Hx. rewrite List.Forall_forall in Hws.
  now rewrite (Hnfc x (Hws x Hx)).
Qed.

Lemma first_kebab_on_ascii_witness :
  RefinedPromptFirst.toKebabCase (fun s => s) true Sample.runtime
    (Sample.str "  Foo_BAR-baz ") []
  = RefinedPromptSecond.toKebabCase true Sample.runtime
      (Sample.str "  Foo_BAR-baz ") [].
Proof.
  apply (first_kebab_on_ascii (fun s => s) true Sample.runtime
           (Sample.str "  Foo_BAR-baz ") []).
  intros s Hs. injection Hs as <-. reflexivity.
Defined.

(** ** few_shot_prompt.js: falsy input *)

(** X19.  [toCamelCase] of few_shot_prompt.js returns the empty string for
    every falsy input: not only null, undefined and the empty string, but
    also false, 0, -0, NaN and 0n, whose string forms are not empty. *)
Theorem few_shot_falsy_input (rt : Runtime) (value : JSValue) :
  ToBoolean value = false ->
  FewShotPrompt.toCamelCase rt value = Return []
  /\ (isNullish value = false -> value <> JSPrim (PString []) ->
      exists s, StringCall rt value = Return s /\ trim s <> []).
Proof.
  intros Hfalse. split.
  - unfold FewShotPrompt.toCamelCase, orElse. now rewrite Hfalse.
  - intros Hnull Hne.
    destruct value as [[| | [] | [] | [] | [] |]|]; try discriminate;
      try (eexists; split; [reflexivity | discriminate]).
    now contradiction Hne.
Qed.

Lemma few_shot_falsy_input_witness :
  FewShotPrompt.toCamelCase Sample.runtime (JSPrim (PBoolean false)) = Return []
  /\ (isNullish (JSPrim (PBoolean false)) = false ->
      JSPrim (PBoolean false) <> JSPrim (PString []) ->
      exists s, StringCall Sample.runtime (JSPrim (PBoolean false)) = Return s
                /\ trim s <> []).
Proof.
  apply (few_shot_falsy_input Sample.runtime (JSPrim (PBoolean false))).
  reflexivity.
Defined.

(** ** Converting what was already converted *)

Lemma lower_twice (rt : Runtime) (w : JSString) :
  Forall (fun c => isAsciiAlnum c = true) w ->
  toLowerCase rt (toLowerCase rt w) = toLowerCase rt w.
Proof.
  intros H. destruct (lower_of_word rt w H) as [-> Hl].
  now apply lower_of_lower.
Qed.

Lemma camelJoin_of_lowered (rt : Runtime) (ws : list JSString) :
  Forall (Forall (fun c => isAsciiAlnum c = true)) ws ->
  camelJoin rt (List.map (toLowerCase rt) ws) = camelJoin rt ws.
Proof.
  intros H. destruct H as [|w rest Hw Hrest]; [reflexivity|].
  cbn [List.map camelJoin]. rewrite (lower_twice rt w Hw). f_equal. f_equal.
  induction Hrest as [|x r Hx _ IH]; [reflexivity|].
  cbn [List.map]. rewrite IH. f_equal.
  unfold capitalized. now rewrite (lower_twice rt x Hx).
Qed.

(** The words of kebab-case or dot.case output are the lower-cased words
    that were joined; the output is ASCII without capitals and needs no
    trimming. *)
Lemma words_of_joined (rt : Runtime) (sep : N) (ws : list JSString) :
  sep = 45 \/ sep = 46 ->
  Forall (fun w => w <> []) ws ->
  Forall (Forall (fun c => isAsciiAlnum c = true)) ws ->
  trim (separatorJoin rt sep ws) = separatorJoin rt sep ws
  /\ Forall (fun c => isAscii c = true) (separatorJoin rt sep ws)
  /\ Forall (fun c => isUpperAZ c = false) (separatorJoin rt sep ws)
  /\ matchClassPlus isAsciiAlnum [] (separatorJoin rt sep ws)
     = List.map (toLowerCase rt) ws.
Proof.
  intros Hsep Hne Hcls.
  destruct (lowered_words rt ws Hne Hcls) as [Hpieces _].
  pose proof (kebab_chars rt ws sep Hne Hcls) as Hchars.
  assert (Hsepc : isWhiteSpace sep = false /\ isAscii sep = true
                  /\ isUpperAZ sep = false /\ isAsciiAlnum sep = false)
    by (destruct Hsep as [-> | ->]; now repeat split).
  destruct Hsepc as [Hs1 [Hs2 [Hs3 Hs4]]].
  split; [|split; [|split]].
  - apply trim_without_space. eapply Forall_impl; [exact Hchars|].
    intros c [H | ->]; [classes; lia | exact Hs1].
  - eapply Forall_impl; [exact Hchars|].
    intros c [H | ->]; [classes; lia | exact Hs2].
  - eapply Forall_impl; [exact Hchars|].
    intros c [H | ->]; [classes; lia | exact Hs3].
  - symmetry. apply runs_unique. apply runs_of_join; [exact Hs4|].
    eapply Forall_impl; [exact Hpieces|]. intros w [Hw Hld].
    split; [assumption|]. eapply Forall_impl; [exact Hld|].
    intros c H. classes. lia.
Qed.

Lemma join_not_nil (sep : JSString) (ws : list JSString) :
  ws <> [] -> Forall (fun w => w <> []) ws -> join sep ws <> [].
Proof.
  intros Hne H. destruct H as [|w r Hw _]; [congruence|].
  cbn [join]. destruct r; [assumption|].
  destruct w; [congruence | discriminate].
Qed.

Lemma refined_of_joined (rt : Runtime) (sep : N) (ws : list JSString) :
  sep = 45 \/ sep = 46 ->
  Forall (fun w => w <> []) ws ->
  Forall (Forall (fun c => isAsciiAlnum c = true)) ws ->
  let again := JSPrim (PString (separatorJoin rt sep ws)) in
  RefinedPrompt.toKebabCase rt again = Return (separatorJoin rt 45 ws)
  /\ RefinedPrompt.toDotCase rt again = Return (separatorJoin rt 46 ws)
  /\ RefinedPrompt.toCamelCase rt again = Return (camelJoin rt ws)
  /\ FewShotPrompt.toCamelCase rt again = Return (camelJoin rt ws).
Proof.
  intros Hsep Hne Hcls again.
  destruct (words_of_joined rt sep ws Hsep Hne Hcls)
    as [Htrim [Hascii [Hlow Hwords]]].
  destruct (lowered_words rt ws Hne Hcls) as [Hpieces Hagain].
  destruct (refined_outputs rt again (separatorJoin rt sep ws) eq_refl eq_refl)
    as [Hk [Hd Hc]].
  rewrite Htrim, ascii_words, Hwords in Hk, Hd, Hc by now right.
  unfold separatorJoin at 1 in Hk. unfold separatorJoin at 1 in Hd.
  rewrite Hagain in Hk, Hd. rewrite camelJoin_of_lowered in Hc by assumption.
  split; [exact Hk|]. split; [exact Hd|]. split; [exact Hc|].
  destruct ws as [|w r]; [reflexivity|].
  assert (Hout : nonEmpty (separatorJoin rt sep (w :: r)) = true).
  { destruct (separatorJoin rt sep (w :: r)) eqn:Hj; [|reflexivity].
    exfalso. revert Hj. apply join_not_nil; [discriminate|].
    eapply Forall_impl; [exact Hpieces|]. now intros x [Hx _]. }
  unfold FewShotPrompt.toCamelCase, orElse, again.
  cbn [ToBoolean]. rewrite Hout.
  cbn [StringCall ToString mbind Completion_bind].
  rewrite Htrim, Hout. cbn [negb].
  rewrite (separate_without_capitals _ Hlow), partsOf_match, Hwords.
  rewrite length_map. cbn [length Nat.eqb].
  rewrite few_shot_join.
  now rewrite (camelJoin_of_lowered rt (w :: r)).
Qed.

(** X20.  When the runtime falls back to the ASCII regex, or the string form
    of the input is ASCII: converting to kebab-case or dot.case first does
    not change what a conversion returns.  [toKebabCase], [toDotCase] and
    [toCamelCase] applied to the output of [toKebabCase] or of [toDotCase]
    return what they return on the input itself; so does [toCamelCase] of
    few_shot_prompt.js, which then agrees with the one of
    refined_prompt.js. *)
Theorem converting_converted_output (rt : Runtime) (value : JSValue)
    (s k : JSString) :
  unicodePropertyEscapes rt = false
  \/ (forall s, StringCall rt value = Return s -> forallb isAscii s = true) ->
  isNullish value = false ->
  StringCall rt value = Return s ->
  RefinedPrompt.toKebabCase rt value = Return k
  \/ RefinedPrompt.toDotCase rt value = Return k ->
  RefinedPrompt.toKebabCase rt (JSPrim (PString k))
  = RefinedPrompt.toKebabCase rt value
  /\ RefinedPrompt.toDotCase rt (JSPrim (PString k))
     = RefinedPrompt.toDotCase rt value
  /\ RefinedPrompt.toCamelCase rt (JSPrim (PString k))
     = RefinedPrompt.toCamelCase rt value
  /\ FewShotPrompt.toCamelCase rt (JSPrim (PString k))
     = RefinedPrompt.toCamelCase rt value.
Proof.
  intros Hmode Hnull Hs Hk.
  destruct (refined_outputs rt value s Hnull Hs) as [Hkebab [Hdot Hcamel]].
  destruct (refined_ascii_words rt value s Hmode Hs) as [Hw [Hne Hcls]].
  rewrite Hkebab, Hdot, Hcamel, Hw in *.
  destruct Hk as [[= <-] | [= <-]].
  - apply (refined_of_joined rt 45); auto.
  - apply (refined_of_joined rt 46); auto.
Qed.

Lemma converting_converted_output_witness :
  RefinedPrompt.toKebabCase Sample.runtime (Sample.str "foo.bar.baz")
  = RefinedPrompt.toKebabCase Sample.runtime (Sample.str "  Foo_BAR-baz ")
  /\ RefinedPrompt.toDotCase Sample.runtime (Sample.str "foo.bar.baz")
     = RefinedPrompt.toDotCase Sample.runtime (Sample.str "  Foo_BAR-baz ")
  /\ RefinedPrompt.toCamelCase Sample.runtime (Sample.str "foo.bar.baz")
     = RefinedPrompt.toCamelCase Sample.runtime (Sample.str "  Foo_BAR-baz ")
  /\ FewShotPrompt.toCamelCase Sample.runtime (Sample.str "foo.bar.baz")
     = RefinedPrompt.toCamelCase Sample.runtime (Sample.str "  Foo_BAR-baz ").
Proof.
  apply (converting_converted_output Sample.runtime (Sample.str "  Foo_BAR-baz ")
           (lit "  Foo_BAR-baz ") (lit "foo.bar.baz")).
  - right. intros s Hs. injection Hs as <-. reflexivity.
  - reflexivity.
  - reflexivity.
  - right. reflexivity.
Defined.

(** ** Joining: what is joined, and how *)

Lemma lower_ascii_word (rt : Runtime) (w : JSString) :
  Forall (fun c => isAscii c = true) w ->
  toLowerCase rt w = List.map lowerAscii w.
Proof.
  intros H. unfold toLowerCase.
  now rewrite (proj2 (forallb_Forall_ascii w) H).
Qed.

Lemma capitalized_ascii_word (rt : Runtime) (w : JSString) :
  Forall (fun c => isAscii c = true) w ->
  capitalized rt w = asciiCapitalized w.
Proof.
  intros H. unfold capitalized. cbv zeta. rewrite (lower_ascii_word rt w H).
  destruct H as [|c rest Hc _]; [reflexivity|].
  cbn [List.map asciiCapitalized].
  change (firstn 1 (lowerAscii c :: List.map lowerAscii rest))
    with [lowerAscii c].
  change (skipn 1 (lowerAscii c :: List.map lowerAscii rest))
    with (List.map lowerAscii rest).
  unfold toUpperCase. cbn [forallb].
  replace (isAscii (lowerAscii c)) with true
    by (unfold lowerAscii; classes; destruct (_ && _) eqn:E; lia).
  cbn [andb List.map app]. f_equal.
  unfold asciiUpper, lowerAscii, upperAscii. classes.
  destruct ((65 <=? c) && (c <=? 90)) eqn:E1;
    destruct ((97 <=? c) && (c <=? 122)) eqn:E2;
    repeat match goal with
           | |- context [if ?b then _ else _] => destruct b eqn:?
           end; lia.
Qed.

(** On ASCII words the joiners of the sources are the joiners spelled out
    character by character. *)
Lemma ascii_joiners (rt : Runtime) (ws : list JSString) :
  Forall (Forall (fun c => isAscii c = true)) ws ->
  camelJoin rt ws = asciiCamelJoin ws
  /\ forall sep, separatorJoin rt sep ws = asciiSeparatorJoin sep ws.
Proof.
  intros H.
  assert (Hlow : List.map (toLowerCase rt) ws = List.map (List.map lowerAscii) ws).
  { induction H as [|w r Hw _ IH]; [reflexivity|].
    cbn [List.map]. now rewrite IH, (lower_ascii_word rt w Hw). }
  split.
  - destruct H as [|w r Hw Hr]; [reflexivity|].
    cbn [camelJoin asciiCamelJoin]. rewrite (lower_ascii_word rt w Hw).
    f_equal. f_equal. clear Hlow.
    induction Hr as [|x r Hx _ IH]; [reflexivity|].
    cbn [List.map]. now rewrite IH, (capitalized_ascii_word rt x Hx).
  - intros sep. unfold separatorJoin, asciiSeparatorJoin. now rewrite Hlow.
Qed.

Lemma alnum_words_ascii' (ws : list JSString) :
  Forall (Forall (fun c => isAsciiAlnum c = true)) ws ->
  Forall (Forall (fun c => isAscii c = true)) ws.
Proof.
  intros H. eapply Forall_impl; [exact H|]. intros w Hw.
  eapply Forall_impl; [exact Hw|]. apply alnum_ascii.
Qed.

(** C2, as stated, fails: the kebab-case module returns "foo-bar" for
    "fooBar", whose trimmed string form has the one word "fooBar"; and for
    null, whose string form "null" has a word, [toKebabCase] returns the
    empty string. *)
Lemma joined_words_are_not_always_those_of_the_string :
  ChainPrompt.toKebabCas Sample.runtime (Sample.str "fooBar")
    = Return (lit "foo-bar")
  /\ Words Sample.runtime (RefinedPrompt.wordRegex Sample.runtime)
       (trim (lit "fooBar")) [lit "fooBar"]
  /\ separatorJoin Sample.runtime 45 [lit "fooBar"] = lit "foobar"
  /\ RefinedPrompt.toKebabCase Sample.runtime (JSPrim PNull) = Return []
  /\ StringCall Sample.runtime (JSPrim PNull) = Return (lit "null")
  /\ Words Sample.runtime (RefinedPrompt.wordRegex Sample.runtime)
       (trim (lit "null")) [lit "null"]
  /\ ~ (forall value s ws,
          StringCall Sample.runtime value = Return s ->
          Words Sample.runtime (RefinedPrompt.wordRegex Sample.runtime) (trim s) ws ->
          ws <> [] ->
          ChainPrompt.toKebabCas Sample.runtime value
          = Return (separatorJoin Sample.runtime 45 ws))
  /\ ~ (forall value s ws,
          StringCall Sample.runtime value = Return s ->
          Words Sample.runtime (RefinedPrompt.wordRegex Sample.runtime) (trim s) ws ->
          ws <> [] ->
          RefinedPrompt.toKebabCase Sample.runtime value
          = Return (separatorJoin Sample.runtime 45 ws)).
Proof.
  assert (H1 : Words Sample.runtime (RefinedPrompt.wordRegex Sample.runtime)
                 (trim (lit "fooBar")) [lit "fooBar"])
    by (apply words_iff; reflexivity).
  assert (H2 : Words Sample.runtime (RefinedPrompt.wordRegex Sample.runtime)
                 (trim (lit "null")) [lit "null"])
    by (apply words_iff; reflexivity).
  split; [reflexivity|]. split; [exact H1|]. split; [reflexivity|].
  split; [reflexivity|]. split; [reflexivity|]. split; [exact H2|]. split.
  - intros H.
    specialize (H (Sample.str "fooBar") (lit "fooBar") [lit "fooBar"]
                  eq_refl H1 ltac:(discriminate)).
    vm_compute in H. discriminate H.
  - intros H.
    specialize (H (JSPrim PNull) (lit "null") [lit "null"]
                  eq_refl H2 ltac:(discriminate)).
    vm_compute in H. discriminate H.
Qed.

(** C2, as amended.  For an input other than null and undefined whose
    coercion to a string succeeds, with the words of the trimmed string form
    (its maximal runs of letters and digits): [toCamelCase] of
    refined_prompt.js returns the first word in lower case followed, without
    separator, by each later word with its first character in upper case and
    the others in lower case; [toKebabCase] and [toDotCase] return the words
    in lower case joined with '-' and with '.'; on ASCII words the case
    mappings are those of the 26 letters.  [toKebabCas] of the kebab-case
    module joins in this way, with '-', not the words of the string but the
    maximal ASCII alphanumeric runs of the string normalized and rewritten at
    camelCase boundaries; [toCamelCase] of few_shot_prompt.js, on a truthy
    input, those of the trimmed string rewritten at camelCase boundaries. *)
Theorem joiner_output (rt : Runtime) (value : JSValue) (s : JSString) :
  isNullish value = false ->
  StringCall rt value = Return s ->
  (forall ws,
      Words rt (RefinedPrompt.wordRegex rt) (trim s) ws ->
      RefinedPrompt.toCamelCase rt value = Return (camelJoin rt ws)
      /\ RefinedPrompt.toKebabCase rt value = Return (separatorJoin rt 45 ws)
      /\ RefinedPrompt.toDotCase rt value = Return (separatorJoin rt 46 ws)
      /\ (Forall (Forall (fun c => isAscii c = true)) ws ->
          camelJoin rt ws = asciiCamelJoin ws
          /\ separatorJoin rt 45 ws = asciiSeparatorJoin 45 ws
          /\ separatorJoin rt 46 ws = asciiSeparatorJoin 46 ws))
  /\ (forall ws,
        MaximalRuns isAsciiAlnum
          (FewShotPrompt.separate (ChainPrompt.normalized rt s)) ws ->
        ChainPrompt.toKebabCas rt value = Return (asciiSeparatorJoin 45 ws))
  /\ (ToBoolean value = true ->
      forall ws,
        MaximalRuns isAsciiAlnum (FewShotPrompt.separate (trim s)) ws ->
        FewShotPrompt.toCamelCase rt value = Return (asciiCamelJoin ws)).
Proof.
  intros Hnull Hs. split; [|split].
  - intros ws Hws. apply words_iff in Hws. subst ws.
    destruct (refined_outputs rt value s Hnull Hs) as [Hk [Hd Hc]].
    split; [exact Hc|]. split; [exact Hk|]. split; [exact Hd|].
    intros Hascii. destruct (ascii_joiners rt _ Hascii) as [Hcamel Hsep].
    split; [exact Hcamel|]. split; apply Hsep.
  - intros ws Hws. apply runs_unique in Hws. subst ws.
    unfold ChainPrompt.toKebabCas. rewrite Hnull, Hs.
    cbn [mbind Completion_bind].
    destruct (chain_tokens_alnum rt s) as [_ Hcls].
    rewrite chain_tokens, spaced_separate in *.
    destruct (ascii_joiners rt _ (alnum_words_ascii' _ Hcls)) as [_ Hsep].
    now rewrite <- (Hsep 45).
  - intros Htrue ws Hws. apply runs_unique in Hws. subst ws.
    unfold FewShotPrompt.toCamelCase, orElse. rewrite Htrue, Hs.
    cbn [mbind Completion_bind].
    pose proof (match_runs isAsciiAlnum (FewShotPrompt.separate (trim s)) []
                  ltac:(constructor)) as Hruns. simpl in Hruns.
    destruct (ascii_joiners rt _ (alnum_words_ascii' _ (runs_class _ _ _ Hruns)))
      as [Hcamel _].
    destruct (trim s) as [|c t] eqn:Ht; [reflexivity|]. cbn [nonEmpty negb].
    cbv zeta. rewrite few_shot_join, partsOf_match, Hcamel.
    destruct (matchClassPlus isAsciiAlnum [] (FewShotPrompt.separate (c :: t)));
      reflexivity.
Qed.

Lemma joiner_output_witness :
  RefinedPrompt.toCamelCase Sample.runtime (Sample.str "fooBar 42")
    = Return (lit "foobar42")
  /\ RefinedPrompt.toKebabCase Sample.runtime (Sample.str "fooBar 42")
    = Return (lit "foobar-42")
  /\ RefinedPrompt.toDotCase Sample.runtime (Sample.str "fooBar 42")
    = Return (lit "foobar.42")
  /\ ChainPrompt.toKebabCas Sample.runtime (Sample.str "fooBar 42")
    = Return (lit "foo-bar-42")
  /\ FewShotPrompt.toCamelCase Sample.runtime (Sample.str "fooBar 42")
    = Return (lit "fooBar42").
Proof.
  destruct (joiner_output Sample.runtime (Sample.str "fooBar 42")
              (lit "fooBar 42") eq_refl eq_refl) as [Hrefined [Hchain Hfew]].
  destruct (Hrefined [lit "fooBar"; lit "42"]) as [Hc [Hk [Hd _]]];
    [apply words_iff; reflexivity|].
  split; [exact Hc|]. split; [exact Hk|]. split; [exact Hd|]. split.
  - apply (Hchain [lit "foo"; lit "Bar"; lit "42"]).
    apply match_iff_runs. reflexivity.
  - apply (Hfew eq_refl [lit "foo"; lit "Bar"; lit "42"]).
    apply match_iff_runs. reflexivity.
Defined.

(** ** Idempotence of [toKebabCase], beyond ASCII *)

Lemma codePoints_cons_plain (c : N) (t : JSString) :
  isHighSurrogate c = false -> codePoints (c :: t) = c :: codePoints t.
Proof.
  intros Hc. destruct t as [|d t]; [reflexivity|].
  rewrite codePoints_step. now rewrite Hc.
Qed.

(** A code unit that is no surrogate is a code point wherever it stands. *)
Lemma codePoints_app_plain (c : N) (b : JSString) :
  isHighSurrogate c = false -> isLowSurrogate c = false ->
  forall a, codePoints (a ++ c :: b) = codePoints a ++ c :: codePoints b.
Proof.
  intros Hh Hl a.
  induction a as [| x | x y t IH1 IH2] using pair_induction.
  - now apply codePoints_cons_plain.
  - cbn [app]. rewrite codePoints_step, Hl, andb_false_r.
    now rewrite codePoints_cons_plain.
  - cbn [app]. rewrite !codePoints_step.
    destruct (isHighSurrogate x && isLowSurrogate y).
    + now rewrite IH1.
    + cbn [app] in IH2. now rewrite IH2.
Qed.

Lemma codePoints_join (ls : list JSString) :
  codePoints (join [45] ls) = join [45] (List.map codePoints ls).
Proof.
  induction ls as [|l r IH]; [reflexivity|].
  destruct r as [|l2 r]; [reflexivity|].
  cbn [List.map]. rewrite (join_cons 45 l), (join_cons 45 (codePoints l))
    by discriminate.
  rewrite codePoints_app_plain by reflexivity. now rewrite IH.
Qed.

Lemma codePoints_not_nil (l : JSString) : l <> [] -> codePoints l <> [].
Proof.
  destruct l as [|c t]; [congruence|]. intros _.
  destruct t as [|d t]; [discriminate|].
  rewrite codePoints_step. now destruct (_ && _).
Qed.

Lemma space_is_no_surrogate (c : N) :
  isWhiteSpace c = true -> isHighSurrogate c = false /\ isLowSurrogate c = false.
Proof. unfold isHighSurrogate, isLowSurrogate. classes. lia. Qed.

(** A string found again as one word neither starts nor ends with white
    space. *)
Lemma found_again_ends (rt : Runtime) (re : WordRegex) (l : JSString) :
  (re = UnicodeWords -> SpaceIsNoLetter rt) ->
  FoundAgain rt re l ->
  (forall c t, l = c :: t -> isWhiteSpace c = false)
  /\ (forall t c, l = t ++ [c] -> isWhiteSpace c = false).
Proof.
  intros Hlaw [Hne Hl]. destruct re.
  - destruct Hl as [Hcps _]. specialize (Hlaw eq_refl). split.
    + intros c t ->. destruct (isWhiteSpace c) eqn:Hc; [|reflexivity].
      destruct (space_is_no_surrogate c Hc) as [Hh _].
      rewrite (codePoints_cons_plain c t Hh) in Hcps.
      inversion Hcps as [|? ? Hcls _]; subst.
      rewrite (Hlaw c Hc) in Hcls. discriminate Hcls.
    + intros t c ->. destruct (isWhiteSpace c) eqn:Hc; [|reflexivity].
      destruct (space_is_no_surrogate c Hc) as [Hh Hlo].
      rewrite (codePoints_app_plain c [] Hh Hlo t) in Hcps.
      apply Forall_app in Hcps as [_ Hcps].
      inversion Hcps as [|? ? Hcls _]; subst.
      rewrite (Hlaw c Hc) in Hcls. discriminate Hcls.
  - split.
    + intros c t ->. inversion Hl; subst. now apply alnum_not_space.
    + intros t c ->. apply Forall_app in Hl as [_ Hl].
      inversion Hl; subst. now apply alnum_not_space.
Qed.

Lemma join_first_piece (sep : JSString) (ls : list JSString) :
  ls <> [] -> exists l rest, In l ls /\ join sep ls = l ++ rest.
Proof.
  destruct ls as [|l r]; [congruence|]. intros _.
  exists l. destruct r as [|l2 r].
  - exists []. split; [now left | now rewrite app_nil_r].
  - eexists. split; [now left | reflexivity].
Qed.

Lemma join_last_piece (sep : JSString) (ls : list JSString) :
  ls <> [] -> exists front l, In l ls /\ join sep ls = front ++ l.
Proof.
  induction ls as [|l r IH]; [congruence|]. intros _.
  destruct r as [|l2 r].
  - exists [], l. split; [now left | reflexivity].
  - destruct IH as [front [x [Hin Heq]]]; [discriminate|].
    exists (l ++ sep ++ front), x. split; [now right|].
    cbn [join] in *. rewrite Heq. now rewrite <- !app_assoc.
Qed.

Lemma trim_joined (rt : Runtime) (re : WordRegex) (ls : list JSString) :
  (re = UnicodeWords -> SpaceIsNoLetter rt) ->
  Forall (FoundAgain rt re) ls ->
  trim (join [45] ls) = join [45] ls.
Proof.
  intros Hlaw Hls. destruct ls as [|l0 r0]; [reflexivity|].
  set (ls := l0 :: r0) in *.
  assert (Hne : ls <> []) by discriminate.
  rewrite List.Forall_forall in Hls.
  apply trim_keep.
  - destruct (join_first_piece [45] ls Hne) as [l [rest [Hin ->]]].
    destruct (found_again_ends rt re l Hlaw (Hls l Hin)) as [Hhead _].
    destruct (Hls l Hin) as [Hl _].
    destruct l as [|c t]; [congruence|]. cbn [app]. now apply (Hhead c t).
  - destruct (join_last_piece [45] ls Hne) as [front [l [Hin ->]]].
    destruct (found_again_ends rt re l Hlaw (Hls l Hin)) as [_ Hlast].
    destruct (Hls l Hin) as [Hl _].
    destruct (exists_last Hl) as [t [c ->]].
    rewrite app_assoc, rev_unit. now apply (Hlast t c).
Qed.

Lemma words_of_stable_join (rt : Runtime) (re : WordRegex) (ls : list JSString) :
  Forall (FoundAgain rt re) ls ->
  matchWords rt re (join [45] ls) = ls.
Proof.
  intros Hls. destruct re; simpl.
  - rewrite codePoints_join.
    replace (matchClassPlus (isLetterOrNumber rt) []
               (join [45] (List.map codePoints ls)))
      with (List.map codePoints ls).
    + induction Hls as [|l r [_ [_ H16]] _ IH]; [reflexivity|].
      cbn [List.map]. now rewrite IH, encode_codePoints.
    + apply runs_unique. apply runs_of_join; [reflexivity|].
      induction Hls as [|l r [Hne [Hcps _]] _ IH]; [constructor|].
      cbn [List.map]. constructor; [|exact IH].
      split; [now apply codePoints_not_nil | exact Hcps].
  - symmetry. apply runs_unique. apply runs_of_join; [reflexivity|].
    eapply Forall_impl; [exact Hls|]. now intros l [Hne Hl].
Qed.

Lemma stable_kebab (rt : Runtime) (ls : list JSString) :
  (unicodePropertyEscapes rt = true -> SpaceIsNoLetter rt) ->
  Forall (fun l => FoundAgain rt (RefinedPrompt.wordRegex rt) l
                   /\ toLowerCase rt l = l) ls ->
  RefinedPrompt.toKebabCase rt (JSPrim (PString (join [45] ls)))
  = Return (join [45] ls).
Proof.
  intros Hlaw Hls.
  assert (Hfound : Forall (FoundAgain rt (RefinedPrompt.wordRegex rt)) ls)
    by (eapply Forall_impl; [exact Hls|]; now intros l [H _]).
  assert (Hlaw' : RefinedPrompt.wordRegex rt = UnicodeWords -> SpaceIsNoLetter rt).
  { unfold RefinedPrompt.wordRegex. intros H. apply Hlaw.
    now destruct (unicodePropertyEscapes rt). }
  destruct (refined_outputs rt (JSPrim (PString (join [45] ls))) (join [45] ls)
              eq_refl eq_refl) as [-> _].
  rewrite (trim_joined rt _ ls Hlaw' Hfound), (words_of_stable_join rt _ ls Hfound).
  unfold separatorJoin. f_equal. f_equal.
  clear Hfound. induction Hls as [|l r [_ Hl] _ IH]; [reflexivity|].
  cbn [List.map]. now rewrite Hl, IH.
Qed.

Lemma sample_space_is_no_letter : SpaceIsNoLetter Sample.runtime.
Proof.
  intros c Hc. unfold isLetterOrNumber. simpl.
  destruct (isAscii c) eqn:Ha.
  - destruct (isAsciiAlnum c) eqn:Hal; [|reflexivity].
    apply alnum_not_space in Hal. congruence.
  - unfold Sample.letterOrNumber. classes. lia.
Qed.

(** C9, as amended.  [toKebabCase] (the final declaration in
    refined_prompt.js) is idempotent on every input whose words lower-casing
    keeps words: each word, in lower case, is found again by the regex as
    one word, and lower-casing it once more changes nothing (with the
    Unicode-aware regex, given that no white space character counts as a
    letter or number).  In particular it is idempotent when the runtime falls
    back to the ASCII regex, and on every input whose string form is
    ASCII. *)
Theorem kebab_idempotent_on_stable_words (rt : Runtime) (value : JSValue) :
  ((unicodePropertyEscapes rt = true -> SpaceIsNoLetter rt) ->
   (forall s ws w,
       StringCall rt value = Return s ->
       Words rt (RefinedPrompt.wordRegex rt) (trim s) ws ->
       In w ws ->
       StableWord rt (RefinedPrompt.wordRegex rt) w) ->
   twice (RefinedPrompt.toKebabCase rt) value = RefinedPrompt.toKebabCase rt value)
  /\ (unicodePropertyEscapes rt = false
      \/ (forall s, StringCall rt value = Return s -> forallb isAscii s = true) ->
      twice (RefinedPrompt.toKebabCase rt) value
      = RefinedPrompt.toKebabCase rt value).
Proof.
  split; [|apply kebab_idempotent_on_ascii].
  intros Hlaw Hstable. unfold twice.
  destruct (isNullish value) eqn:Hnull.
  { assert (Hk : RefinedPrompt.toKebabCase rt value = Return [])
      by (unfold RefinedPrompt.toKebabCase; now rewrite Hnull).
    rewrite Hk. reflexivity. }
  destruct (StringCall rt value) as [s|e] eqn:Hs.
  - destruct (refined_outputs rt value s Hnull Hs) as [Hk _].
    rewrite Hk. cbn [mbind Completion_bind]. unfold separatorJoin.
    apply stable_kebab; [exact Hlaw|].
    apply List.Forall_forall. intros l Hl.
    apply in_map_iff in Hl as [w [<- Hw]].
    apply (Hstable s (matchWords rt (RefinedPrompt.wordRegex rt) (trim s)) w
             eq_refl); [now apply words_iff | exact Hw].
  - assert (Hk : RefinedPrompt.toKebabCase rt value = Throw e)
      by (unfold RefinedPrompt.toKebabCase; now rewrite Hnull, Hs).
    rewrite Hk. reflexivity.
Qed.

Lemma kebab_idempotent_on_stable_words_witness :
  twice (RefinedPrompt.toKebabCase Sample.runtime)
    (JSPrim (PString (lit "Caf" ++ [0xC9] ++ lit " au lait")))
  = RefinedPrompt.toKebabCase Sample.runtime
      (JSPrim (PString (lit "Caf" ++ [0xC9] ++ lit " au lait"))).
Proof.
  apply (proj1 (kebab_idempotent_on_stable_words Sample.runtime
                  (JSPrim (PString (lit "Caf" ++ [0xC9] ++ lit " au lait"))))).
  - intros _. exact sample_space_is_no_letter.
  - intros s ws w Hs Hws Hw. injection Hs as <-.
    apply words_iff in Hws. subst ws. vm_compute in Hw.
    destruct Hw as [<- | [<- | [<- | []]]];
      (split; [split; [discriminate | split; repeat constructor] | reflexivity]).
Defined.
